(** * gmcli: the reply-composition core of the Gmail command-line client

    A shallow embedding of [src/reply-utils.ts] (the pure reply helpers) and
    of the reply resolver and MIME composer of [GmailService]
    ([getMessageForReply], [decodeMessageBody], [decodeHtmlBody],
    [createDraft], [sendMessage]), with the properties of the specification
    stated and settled against them.

    JavaScript strings are modelled by [string]: a sequence of code units,
    here the code units below 256.  White space and letter case follow the
    ECMAScript definitions restricted to that range. *)

From Stdlib Require Import Bool Arith Lia List Ascii String.
Import ListNotations.
Open Scope list_scope.
Open Scope string_scope.

(** ** JavaScript string primitives *)

Module JS.

(** [WhiteSpace] and [LineTerminator] code units below 256: TAB, LF, VT, FF,
    CR, SP and NBSP.  This is the set [String.prototype.trim] strips and the
    class the regular-expression escape [\s] matches. *)
Definition is_ws (c : ascii) : bool :=
  let n := nat_of_ascii c in
  (((9 <=? n) && (n <=? 13)) || (n =? 32) || (n =? 160))%nat.

(** Line terminators, which the regular-expression atom [.] refuses. *)
Definition is_line_terminator (c : ascii) : bool :=
  let n := nat_of_ascii c in ((n =? 10) || (n =? 13))%nat.

(** [String.prototype.toLowerCase] on one code unit: A-Z, and the Latin-1
    capitals U+00C0-U+00DE except the multiplication sign U+00D7. *)
Definition lower_char (c : ascii) : ascii :=
  let n := nat_of_ascii c in
  if (((65 <=? n) && (n <=? 90))
      || ((192 <=? n) && (n <=? 222) && negb (n =? 215)))%nat
  then ascii_of_nat (n + 32) else c.

Fixpoint toLowerCase (s : string) : string :=
  match s with
  | EmptyString => EmptyString
  | String c r => String (lower_char c) (toLowerCase r)
  end.

Fixpoint trimStart (s : string) : string :=
  match s with
  | EmptyString => EmptyString
  | String c r => if is_ws c then trimStart r else s
  end.

Fixpoint trimEnd (s : string) : string :=
  match s with
  | EmptyString => EmptyString
  | String c r =>
      match trimEnd r with
      | EmptyString => if is_ws c then EmptyString else String c EmptyString
      | r' => String c r'
      end
  end.

(** [String.prototype.trim]. *)
Definition trim (s : string) : string := trimEnd (trimStart s).

(** [s.split(sep)] for a separator of one code unit.  The result is never
    empty: [("").split(",")] is [[""]]. *)
Fixpoint split (sep : ascii) (s : string) : list string :=
  match s with
  | EmptyString => [EmptyString]
  | String c r =>
      if Ascii.eqb c sep then EmptyString :: split sep r
      else match split sep r with
           | h :: t => String c h :: t
           | [] => [String c EmptyString]
           end
  end.

(** [xs.join(sep)]. *)
Definition join (sep : string) (xs : list string) : string :=
  String.concat sep xs.

(** [s.replace(/c/g, rep)] for a pattern of one literal code unit. *)
Fixpoint replaceAll (c : ascii) (rep : string) (s : string) : string :=
  match s with
  | EmptyString => EmptyString
  | String d r =>
      if Ascii.eqb d c then rep ++ replaceAll c rep r
      else String d (replaceAll c rep r)
  end.

(** Truthiness of a string: only the empty string is falsy. *)
Definition truthy (s : string) : bool :=
  match s with EmptyString => false | _ => true end.

(** Truthiness of a possibly undefined string. *)
Definition truthy_opt (o : option string) : bool :=
  match o with Some s => truthy s | None => false end.

(** [o || ""] on a possibly undefined string. *)
Definition or_empty (o : option string) : string :=
  match o with Some s => s | None => EmptyString end.

(** Does [c] occur in [s]? *)
Fixpoint mem_char (c : ascii) (s : string) : bool :=
  match s with
  | EmptyString => false
  | String d r => Ascii.eqb d c || mem_char c r
  end.

End JS.

Definition LF : ascii := ascii_of_nat 10.
Definition CR : ascii := ascii_of_nat 13.
Definition CRLF : string := String CR (String LF EmptyString).
Definition DQUOTE : ascii := ascii_of_nat 34.

(** ** src/reply-utils.ts *)

Module ReplyUtils.
Import JS.

(** *** The pattern [/^(.+?)\s*<([^>]+)>$/] of [parseEmailAddress]

    The matcher follows the backtracking order of the pattern.  The lazy
    group [(.+?)] grows one code unit at a time; at each length the rest of
    the pattern is attempted.  [\s*] is greedy, and since the next atom [<]
    is not white space only the whole white-space run can be followed by
    it.  [[^>]+] is greedy as well, and the [>] that must follow it can only
    be the first [>] after the bracket, which [$] then requires to be the
    last code unit. *)

(** The longest prefix free of [>], and what follows it. *)
Fixpoint span_not_gt (s : string) : string * string :=
  match s with
  | EmptyString => (EmptyString, EmptyString)
  | String c r =>
      if Ascii.eqb c ">" then (EmptyString, s)
      else let (g, rest) := span_not_gt r in (String c g, rest)
  end.

(** [([^>]+)>$] at [s]: the address group. *)
Definition match_address (s : string) : option string :=
  let (g2, rest) := span_not_gt s in
  if truthy g2 && String.eqb rest ">" then Some g2 else None.

(** [\s*<([^>]+)>$] at [s]. *)
Definition match_bracket (s : string) : option string :=
  match trimStart s with
  | String "<" r => match_address r
  | _ => None
  end.

(** [(.+?)] has consumed [g1] (at least one code unit) and [s] remains. *)
Fixpoint match_lazy (g1 : string) (s : string) : option (string * string) :=
  match match_bracket s with
  | Some g2 => Some (g1, g2)
  | None =>
      match s with
      | EmptyString => None
      | String c r =>
          if is_line_terminator c then None
          else match_lazy (g1 ++ String c EmptyString) r
      end
  end.

(** [trimmed.match(/^(.+?)\s*<([^>]+)>$/)]: the two captured groups. *)
Definition match_name_address (t : string) : option (string * string) :=
  match t with
  | EmptyString => None
  | String c r =>
      if is_line_terminator c then None
      else match_lazy (String c EmptyString) r
  end.

Record Address := { name : string; email : string }.

Definition parseEmailAddress (header : string) : Address :=
  let trimmed := trim header in
  match match_name_address trimmed with
  | Some (g1, g2) => {| name := trim g1; email := trim g2 |}
  | None => {| name := EmptyString; email := trimmed |}
  end.

Definition parseEmailList (header : string) : list string :=
  if negb (truthy header) || negb (truthy (trim header)) then []
  else
    filter (fun e => (0 <? String.length e)%nat)
      (map (fun entry => email (parseEmailAddress (trim entry)))
         (split "," header)).

(** [/^re:\s*/i.test(trimmed)].  [\s*] also matches nothing, so the test is
    on the first three code units only. *)
Definition has_re_prefix (t : string) : bool :=
  match t with
  | String c1 (String c2 (String ":" _)) =>
      (Ascii.eqb c1 "r" || Ascii.eqb c1 "R")
      && (Ascii.eqb c2 "e" || Ascii.eqb c2 "E")
  | _ => false
  end.

Definition formatReplySubject (subject : string) : string :=
  let trimmed := trim subject in
  if has_re_prefix trimmed then trimmed else "Re: " ++ trimmed.

Definition filterSelfFromRecipients
    (recipients : list string) (selfEmail : string) : list string :=
  let selfLower := toLowerCase selfEmail in
  filter (fun e => negb (String.eqb (toLowerCase e) selfLower)) recipients.

Definition formatQuotedBody (body : string) : string :=
  if negb (truthy body) then EmptyString
  else join (String LF EmptyString)
         (map (fun line => "> " ++ line) (split LF body)).

Definition escapeHtml (text : string) : string :=
  replaceAll DQUOTE "&quot;"
    (replaceAll ">" "&gt;"
       (replaceAll "<" "&lt;"
          (replaceAll "&" "&amp;" text))).

Definition textToHtml (text : string) : string :=
  replaceAll LF "<br>" (escapeHtml text).

End ReplyUtils.

(** ** The Gmail service: data of the remote API *)

Module Gmail.
Import JS ReplyUtils.
#[local] Set Warnings "-register-all".

(** A header of a message part ([Schema$MessagePartHeader]): both fields are
    optional in the API's types. *)
Record Header := { h_name : option string; h_value : option string }.

(** A message part ([Schema$MessagePart]).  [data] is [body?.data]; an
    absent [headers] or [parts] array is the empty list, which the code
    treats alike ([headers || []], loops over [parts]). *)
Inductive Part : Type :=
  mkPart (mimeType : option string) (data : option string)
         (headers : list Header) (parts : list Part).

Definition part_mimeType (p : Part) : option string :=
  match p with mkPart m _ _ _ => m end.
Definition part_data (p : Part) : option string :=
  match p with mkPart _ d _ _ => d end.
Definition part_headers (p : Part) : list Header :=
  match p with mkPart _ _ h _ => h end.
Definition part_parts (p : Part) : list Part :=
  match p with mkPart _ _ _ ps => ps end.

(** [Schema$Message], as far as the composer reads it. *)
Record Message := {
  m_id : option string;
  m_threadId : option string;
  m_payload : option Part
}.

(** A message as listed in a thread fetched with [format: "minimal"]; the
    code reads its [id] under a non-null assertion. *)
Record ThreadEntry := { entry_id : string }.

Record Draft := { draft_id : option string; draft_message : option Message }.

(** The result of [getMessageForReply]. *)
Module ReplyData.
Record t := {
  messageId : string;
  threadId : string;
  from : string;
  to : list string;
  cc : list string;
  subject : string;
  date : string;
  body : string;
  htmlBody : string;
  inReplyTo : string;
  references : string
}.
End ReplyData.

(** The [options] argument of [createDraft] and [sendMessage]; every field
    is optional.  ([sendMessage] declares no [threadId] and never reads it.) *)
Module Options.
Record t := {
  cc : option (list string);
  bcc : option (list string);
  threadId : option string;
  replyToMessageId : option string;
  attachments : option (list string);
  replyAll : option bool;
  includeQuote : option bool
}.
End Options.

(** [options.cc = v]: the assignment of one field of the caller's object. *)
Definition with_cc (v : list string) (o : Options.t) : Options.t :=
  {| Options.cc := Some v;
     Options.bcc := Options.bcc o;
     Options.threadId := Options.threadId o;
     Options.replyToMessageId := Options.replyToMessageId o;
     Options.attachments := Options.attachments o;
     Options.replyAll := Options.replyAll o;
     Options.includeQuote := Options.includeQuote o |}.

(** ** The host: everything the service reaches outside this repository

    The remote API ([gmail.users.*]), the account store, the file system,
    Node's [path] and [Buffer] codecs, and the clock and random source of
    the boundary tokens.  A rejected request or a failed read is [None].
    The two attribution-line renderers of [reply-utils.ts] are taken here
    as well: their output depends on the host's [Date] and local time zone. *)
Record Host := {
  accountKnown : string -> bool;
  threads_get : string -> option (list ThreadEntry);
  messages_get : string -> option Message;
  drafts_create : string -> option string -> option Draft;
  messages_send : string -> option string -> option Message;
  readFileSync : string -> option string;
  path_basename : string -> string;
  path_extname : string -> string;
  toBase64 : string -> string;
  toBase64url : string -> string;
  fromBase64url : string -> string;
  formatAttributionLine : string -> string -> string;
  formatHtmlAttributionLine : string -> string -> string;
  boundaryToken : string;
  altBoundaryToken : string
}.

(** ** Effects: the caller's [options] object, the requests sent, exceptions *)

Inductive Call :=
| ThreadsGet (id : string)
| MessagesGet (id : string)
| DraftsCreate (raw : string) (thread : option string)
| MessagesSend (raw : string) (thread : option string).

(** The part of the heap the service can reach: the [options] object the
    caller passed (shared with the caller, not copied), and the log of the
    requests made so far. *)
Record Store := { options : Options.t; calls : list Call }.

Inductive Outcome (A : Type) :=
| Returned (a : A)
| Thrown.
Arguments Returned {A} a.
Arguments Thrown {A}.

Definition M (A : Type) : Type := Store -> Outcome A * Store.

Definition ret {A} (a : A) : M A := fun st => (Returned a, st).

Definition bind {A B} (c : M A) (k : A -> M B) : M B :=
  fun st =>
    match c st with
    | (Returned a, st') => k a st'
    | (Thrown, st') => (Thrown, st')
    end.

Definition throw {A} : M A := fun st => (Thrown, st).

(** [try { c } catch { h }]: effects of [c] before the exception stay. *)
Definition tryCatch {A} (c : M A) (h : M A) : M A :=
  fun st =>
    match c st with
    | (Returned a, st') => (Returned a, st')
    | (Thrown, st') => h st'
    end.

Definition readOptions : M Options.t := fun st => (Returned (options st), st).

Definition assign_cc (v : list string) : M unit :=
  fun st =>
    (Returned tt, {| options := with_cc v (options st); calls := calls st |}).

Definition request {A} (c : Call) (answer : option A) : M A :=
  fun st =>
    let st' := {| options := options st; calls := calls st ++ [c] |} in
    match answer with
    | Some a => (Returned a, st')
    | None => (Thrown, st')
    end.

Definition orThrow {A} (o : option A) : M A :=
  match o with Some a => ret a | None => throw end.

Declare Scope gmail_scope.
Delimit Scope gmail_scope with gmail.
Notation "x <- c ;; k" := (bind c (fun x => k))
  (at level 61, c at next level, right associativity) : gmail_scope.
Notation "c ;;; k" := (bind c (fun _ => k))
  (at level 61, right associativity) : gmail_scope.
Open Scope gmail_scope.

Definition NL : string := String LF EmptyString.
Definition quoted (s : string) : string :=
  String DQUOTE EmptyString ++ s ++ String DQUOTE EmptyString.

(** The first truthy [f p] over [ps], or the empty string: the loop
    [for (const part of parts) { const nested = f(part); if (nested) return nested; }]. *)
Definition first_truthy {A} (f : A -> string) : list A -> string :=
  fix scan (ps : list A) : string :=
    match ps with
    | [] => EmptyString
    | p :: ps' => let nested := f p in if truthy nested then nested else scan ps'
    end.

Definition mime_is (ty : string) (p : Part) : bool :=
  match part_mimeType p with Some m => String.eqb m ty | None => false end.

Section Service.

Variable host : Host.

(** [Buffer.from(data, "base64url").toString()]. *)
Definition decode (d : option string) : string :=
  fromBase64url host (or_empty d).

(** [decodeMessageBody], on a defined payload. *)
Fixpoint decodeMessageBody (payload : Part) : string :=
  match payload with
  | mkPart _ d _ ps =>
      if truthy_opt d then decode d
      else
        match find (fun part => mime_is "text/plain" part
                                && truthy_opt (part_data part)) ps with
        | Some part => decode (part_data part)
        | None => first_truthy decodeMessageBody ps
        end
  end.

(** [decodeHtmlBody], on a defined payload. *)
Fixpoint decodeHtmlBody (payload : Part) : string :=
  match payload with
  | mkPart m d _ ps =>
      if truthy_opt d && mime_is "text/html" payload then decode d
      else
        match find (fun part => mime_is "text/html" part
                                && truthy_opt (part_data part)) ps with
        | Some part => decode (part_data part)
        | None => first_truthy decodeHtmlBody ps
        end
  end.

(** The entry points, where the payload may be undefined ([!payload]). *)
Definition decodeMessageBody_of (payload : option Part) : string :=
  match payload with Some p => decodeMessageBody p | None => EmptyString end.
Definition decodeHtmlBody_of (payload : option Part) : string :=
  match payload with Some p => decodeHtmlBody p | None => EmptyString end.

(** [getGmailClient]: throws when the account is not in the store. *)
Definition getGmailClient (email : string) : M unit :=
  if accountKnown host email then ret tt else throw.

Definition gmail_threads_get (id : string) : M (list ThreadEntry) :=
  request (ThreadsGet id) (threads_get host id).
Definition gmail_messages_get (id : string) : M Message :=
  request (MessagesGet id) (messages_get host id).
Definition gmail_drafts_create (raw : string) (thread : option string) : M Draft :=
  request (DraftsCreate raw thread) (drafts_create host raw thread).
Definition gmail_messages_send (raw : string) (thread : option string) : M Message :=
  request (MessagesSend raw thread) (messages_send host raw thread).

(** [headers.find(h => h.name?.toLowerCase() === name.toLowerCase())?.value || ""]. *)
Definition getHeader (headers : list Header) (name : string) : string :=
  match find (fun h => match h_name h with
                       | Some n => String.eqb (toLowerCase n) (toLowerCase name)
                       | None => false
                       end) headers with
  | Some h => or_empty (h_value h)
  | None => EmptyString
  end.

(** The [try]/[catch] block of [getMessageForReply]: which id to fetch. *)
Definition resolveMessageId (messageOrThreadId : string) : M string :=
  tryCatch
    (messages <- gmail_threads_get messageOrThreadId ;;
     if (0 <? List.length messages)%nat then
       m <- orThrow (nth_error messages (List.length messages - 1)) ;;
       ret (entry_id m)
     else ret messageOrThreadId)
    (ret messageOrThreadId).

(** What [getMessageForReply] builds from the fetched message. *)
Definition replyDataOf (msg : Message) : ReplyData.t :=
  let headers :=
    match m_payload msg with Some p => part_headers p | None => [] end in
  let rfc822MessageId := getHeader headers "Message-ID" in
  let existingRefs := getHeader headers "References" in
  {| ReplyData.messageId := or_empty (m_id msg);
     ReplyData.threadId := or_empty (m_threadId msg);
     ReplyData.from := getHeader headers "From";
     ReplyData.to := parseEmailList (getHeader headers "To");
     ReplyData.cc := parseEmailList (getHeader headers "Cc");
     ReplyData.subject := getHeader headers "Subject";
     ReplyData.date := getHeader headers "Date";
     ReplyData.body := decodeMessageBody_of (m_payload msg);
     ReplyData.htmlBody := decodeHtmlBody_of (m_payload msg);
     ReplyData.inReplyTo := rfc822MessageId;
     ReplyData.references :=
       if truthy existingRefs then existingRefs ++ " " ++ rfc822MessageId
       else rfc822MessageId |}.

Definition getMessageForReply (email : string) (messageOrThreadId : string)
  : M ReplyData.t :=
  getGmailClient email ;;;
  messageIdToFetch <- resolveMessageId messageOrThreadId ;;
  msg <- gmail_messages_get messageIdToFetch ;;
  ret (replyDataOf msg).

(** *** The quote renderers of [reply-utils.ts] that sit on the attribution
    lines *)

Definition formatGmailQuote (date sender body : string) : string :=
  let attributionLine := formatAttributionLine host date sender in
  let quotedBody := formatQuotedBody body in
  NL ++ NL ++ attributionLine ++ NL ++ NL ++ quotedBody.

Definition formatHtmlGmailQuote
    (date sender body : string) (htmlBody : option string) : string :=
  let attributionLine := formatHtmlAttributionLine host date sender in
  let quotedContent :=
    if truthy_opt htmlBody then or_empty htmlBody else escapeHtml body in
  "<div class=" ++ quoted "gmail_quote gmail_quote_container" ++ ">"
  ++ "<div dir=" ++ quoted "ltr" ++ " class=" ++ quoted "gmail_attr" ++ ">"
  ++ attributionLine ++ "<br></div>"
  ++ "<blockquote class=" ++ quoted "gmail_quote" ++ " style="
  ++ quoted "margin:0px 0px 0px 0.8ex;border-left:1px solid rgb(204,204,204);padding-left:1ex"
  ++ ">" ++ quotedContent ++ "</blockquote></div>".

Definition formatHtmlReplyBody
    (replyText date sender originalBody : string)
    (originalHtmlBody : option string) : string :=
  let htmlReply := textToHtml replyText in
  let htmlQuote := formatHtmlGmailQuote date sender originalBody originalHtmlBody in
  "<div dir=" ++ quoted "ltr" ++ "><div>" ++ htmlReply ++ "</div><br>"
  ++ htmlQuote ++ "</div>".

(** *** [createDraft] and [sendMessage] *)

Definition mimeTypes : list (string * string) :=
  [ (".pdf", "application/pdf");
    (".doc", "application/msword");
    (".docx", "application/vnd.openxmlformats-officedocument.wordprocessingml.document");
    (".xls", "application/vnd.ms-excel");
    (".xlsx", "application/vnd.openxmlformats-officedocument.spreadsheetml.sheet");
    (".png", "image/png");
    (".jpg", "image/jpeg");
    (".jpeg", "image/jpeg");
    (".gif", "image/gif");
    (".txt", "text/plain");
    (".html", "text/html");
    (".zip", "application/zip");
    (".json", "application/json") ].

Definition getMimeType (filename : string) : string :=
  let ext := toLowerCase (path_extname host filename) in
  match find (fun kv => String.eqb (fst kv) ext) mimeTypes with
  | Some kv => snd kv
  | None => "application/octet-stream"
  end.

(** The mutable locals of [createDraft]/[sendMessage] after the auto-fill
    block.  [recipientList] starts as the [to] argument, which a caller may
    leave undefined. *)
Record Locals := {
  recipientList : option (list string);
  subjectLine : string;
  bodyText : string;
  v_inReplyTo : option string;
  v_references : option string;
  v_threadId : option string;
  replyData : option ReplyData.t
}.

(** [!recipientList || recipientList.length === 0
     || (recipientList.length === 1 && !recipientList[0])]. *)
Definition noRecipients (recipientList : option (list string)) : bool :=
  match recipientList with
  | None => true
  | Some [] => true
  | Some [r] => negb (truthy r)
  | Some _ => false
  end.

(** [options.includeQuote !== false]. *)
Definition quoteWanted (o : Options.t) : bool :=
  match Options.includeQuote o with Some false => false | _ => true end.

Definition is_set (b : option bool) : bool :=
  match b with Some true => true | _ => false end.

Definition or_nil (l : option (list string)) : list string :=
  match l with Some xs => xs | None => [] end.

(** [l?.length] as a condition. *)
Definition nonEmpty (l : option (list string)) : bool :=
  match l with Some (_ :: _) => true | _ => false end.

(** Lines 1084-1119 of [createDraft], the same text as lines 1429-1464 of
    [sendMessage]: the auto-fill block.  [threadId0] is the initial value of
    the local [threadId], the one place where the two functions differ. *)
Definition autoFill (threadId0 : option string)
    (email : string) (to : option (list string)) (subject body : string)
  : M Locals :=
  o <- readOptions ;;
  if truthy_opt (Options.replyToMessageId o) then
    rd <- getMessageForReply email (or_empty (Options.replyToMessageId o)) ;;
    recipientList <-
      (if noRecipients to then
         let senderEmail :=
           ReplyUtils.email (parseEmailAddress (ReplyData.from rd)) in
         o1 <- readOptions ;;
         (if is_set (Options.replyAll o1) then
            let allRecipients := (ReplyData.to rd ++ ReplyData.cc rd)%list in
            let filtered := filterSelfFromRecipients allRecipients email in
            o2 <- readOptions ;;
            assign_cc (or_nil (Options.cc o2) ++ filtered)%list
          else ret tt) ;;;
         ret (Some [senderEmail])
       else ret to) ;;
    let subjectLine :=
      if negb (truthy subject) then formatReplySubject (ReplyData.subject rd)
      else subject in
    o3 <- readOptions ;;
    let bodyText :=
      if quoteWanted o3 then
        body ++ formatGmailQuote (ReplyData.date rd) (ReplyData.from rd)
                  (ReplyData.body rd)
      else body in
    ret {| recipientList := recipientList;
           subjectLine := subjectLine;
           bodyText := bodyText;
           v_inReplyTo := Some (ReplyData.inReplyTo rd);
           v_references := Some (ReplyData.references rd);
           v_threadId := Some (ReplyData.threadId rd);
           replyData := Some rd |}
  else
    ret {| recipientList := to;
           subjectLine := subject;
           bodyText := body;
           v_inReplyTo := None;
           v_references := None;
           v_threadId := threadId0;
           replyData := None |}.

(** What the assembly block computes. [parts] is empty on the flat
    [text/plain] path, which declares no such local. *)
Record Assembled := {
  contentType : string;
  headers : list string;
  parts : list string;
  emailContent : string
}.

Definition attachmentPart
    (boundary mimeType filename base64Content : string) : string :=
  "--" ++ boundary ++ CRLF
  ++ "Content-Type: " ++ mimeType ++ CRLF
  ++ "Content-Transfer-Encoding: base64" ++ CRLF
  ++ "Content-Disposition: attachment; filename=" ++ quoted filename
  ++ CRLF ++ CRLF
  ++ base64Content.

(** The loop [for (const filePath of options.attachments!)]. *)
Fixpoint attachmentParts (boundary : string) (files : list string)
  : M (list string) :=
  match files with
  | [] => ret []
  | filePath :: rest =>
      let filename := path_basename host filePath in
      fileContent <- orThrow (readFileSync host filePath) ;;
      let base64Content := toBase64 host fileContent in
      let mimeType := getMimeType filename in
      more <- attachmentParts boundary rest ;;
      ret (attachmentPart boundary mimeType filename base64Content :: more)
  end.

(** [formatHtmlReplyBody(originalBody, replyData!.date, ...)]. *)
Definition htmlBodyFor (originalBody : string) (rd : option ReplyData.t)
  : M string :=
  r <- orThrow rd ;;
  ret (formatHtmlReplyBody originalBody (ReplyData.date r) (ReplyData.from r)
         (ReplyData.body r) (Some (ReplyData.htmlBody r))).

Definition alternativeInMixed
    (boundary altBoundary bodyText htmlBody : string) : string :=
  "--" ++ boundary ++ CRLF
  ++ "Content-Type: multipart/alternative; boundary=" ++ quoted altBoundary
  ++ CRLF ++ CRLF
  ++ "--" ++ altBoundary ++ CRLF
  ++ "Content-Type: text/plain; charset=UTF-8" ++ CRLF ++ CRLF
  ++ bodyText
  ++ CRLF ++ "--" ++ altBoundary ++ CRLF
  ++ "Content-Type: text/html; charset=UTF-8" ++ CRLF ++ CRLF
  ++ htmlBody
  ++ CRLF ++ "--" ++ altBoundary ++ "--".

Definition textPart (boundary bodyText : string) : string :=
  "--" ++ boundary ++ CRLF
  ++ "Content-Type: text/plain; charset=UTF-8" ++ CRLF ++ CRLF ++ bodyText.

Definition htmlPart (boundary htmlBody : string) : string :=
  "--" ++ boundary ++ CRLF
  ++ "Content-Type: text/html; charset=UTF-8" ++ CRLF ++ CRLF ++ htmlBody.

Definition headerBlock (email : string) (recipients : list string)
    (o : Options.t) (l : Locals) (contentType : string) : list string :=
  filter truthy
    [ "From: " ++ email;
      "To: " ++ join ", " recipients;
      if nonEmpty (Options.cc o)
      then "Cc: " ++ join ", " (or_nil (Options.cc o)) else EmptyString;
      if nonEmpty (Options.bcc o)
      then "Bcc: " ++ join ", " (or_nil (Options.bcc o)) else EmptyString;
      "Subject: " ++ subjectLine l;
      if truthy_opt (v_inReplyTo l)
      then "In-Reply-To: " ++ or_empty (v_inReplyTo l) else EmptyString;
      if truthy_opt (v_references l)
      then "References: " ++ or_empty (v_references l) else EmptyString;
      "MIME-Version: 1.0";
      "Content-Type: " ++ contentType ].

(** Lines 1121-1211 of [createDraft], the same text as lines 1466-1556 of
    [sendMessage]: content type, header block and body.  [body] is the
    [originalBody] constant. *)
Definition assemble (email body : string) (l : Locals) : M Assembled :=
  o <- readOptions ;;
  let hasAttachments := nonEmpty (Options.attachments o) in
  let hasHtmlQuote :=
    match replyData l with Some _ => quoteWanted o | None => false end in
  let boundary := "boundary_" ++ boundaryToken host in
  let altBoundary := "alt_" ++ altBoundaryToken host in
  let contentType :=
    if hasAttachments then "multipart/mixed; boundary=" ++ quoted boundary
    else if hasHtmlQuote
         then "multipart/alternative; boundary=" ++ quoted altBoundary
         else "text/plain; charset=UTF-8" in
  recipients <- orThrow (recipientList l) ;;
  let headers := headerBlock email recipients o l contentType in
  if hasAttachments then
    first <-
      (if hasHtmlQuote then
         htmlBody <- htmlBodyFor body (replyData l) ;;
         ret (alternativeInMixed boundary altBoundary (bodyText l) htmlBody)
       else ret (textPart boundary (bodyText l))) ;;
    more <- attachmentParts boundary (or_nil (Options.attachments o)) ;;
    let parts := first :: more in
    ret {| contentType := contentType;
           headers := headers;
           parts := parts;
           emailContent :=
             join CRLF headers ++ CRLF ++ CRLF ++ join CRLF parts
             ++ CRLF ++ "--" ++ boundary ++ "--" |}
  else if hasHtmlQuote then
    htmlBody <- htmlBodyFor body (replyData l) ;;
    let parts :=
      [ textPart altBoundary (bodyText l); htmlPart altBoundary htmlBody ] in
    ret {| contentType := contentType;
           headers := headers;
           parts := parts;
           emailContent :=
             join CRLF headers ++ CRLF ++ CRLF ++ join CRLF parts
             ++ CRLF ++ "--" ++ altBoundary ++ "--" |}
  else
    ret {| contentType := contentType;
           headers := headers;
           parts := [];
           emailContent := join CRLF headers ++ CRLF ++ CRLF ++ bodyText l |}.

(** [createDraft] up to the point where [emailContent] is complete. *)
Definition createDraft_message
    (email : string) (to : option (list string)) (subject body : string)
  : M (Locals * Assembled) :=
  getGmailClient email ;;;
  o <- readOptions ;;
  l <- autoFill (Options.threadId o) email to subject body ;;
  a <- assemble email body l ;;
  ret (l, a).

Definition createDraft
    (email : string) (to : option (list string)) (subject body : string)
  : M Draft :=
  la <- createDraft_message email to subject body ;;
  let encodedEmail := toBase64url host (emailContent (snd la)) in
  gmail_drafts_create encodedEmail (v_threadId (fst la)).

(** [sendMessage] up to the point where [emailContent] is complete. *)
Definition sendMessage_message
    (email : string) (to : option (list string)) (subject body : string)
  : M (Locals * Assembled) :=
  getGmailClient email ;;;
  l <- autoFill None email to subject body ;;
  a <- assemble email body l ;;
  ret (l, a).

Definition sendMessage
    (email : string) (to : option (list string)) (subject body : string)
  : M Message :=
  la <- sendMessage_message email to subject body ;;
  let encodedEmail := toBase64url host (emailContent (snd la)) in
  gmail_messages_send encodedEmail (v_threadId (fst la)).

End Service.
End Gmail.

(** * Vocabulary of the statements *)

Module Spec.
Import JS ReplyUtils Gmail.
#[local] Set Warnings "-register-all".

(** A string that does not begin with white space. *)
Definition starts_clean (s : string) : bool :=
  match s with EmptyString => true | String c _ => negb (is_ws c) end.

(** A string of white space only. *)
Fixpoint all_ws (s : string) : bool :=
  match s with
  | EmptyString => true
  | String c r => is_ws c && all_ws r
  end.

(** One line of a quoted body. *)
Definition quoteLine (line : string) : string := "> " ++ line.

(** The segments the claim counts: the pieces between commas that are not
    empty once trimmed. *)
Definition nonEmptySegments (header : string) : list string :=
  filter (fun seg => truthy (trim seg)) (split "," header).

(** A trimmed segment of the form [name <address>] whose address is white
    space only. *)
Definition blankAddress (t : string) : bool :=
  match match_name_address t with
  | Some (_, g2) => negb (truthy (trim g2))
  | None => false
  end.

(** The segments that end up in the result. *)
Definition countedSegments (header : string) : list string :=
  filter (fun seg => truthy (trim seg) && negb (blankAddress (trim seg)))
    (split "," header).

(** *** Message part trees *)

(** A part and all the parts below it, depth first. *)
Fixpoint allParts (p : Part) : list Part :=
  match p with
  | mkPart _ _ _ ps => p :: flat_map allParts ps
  end.

(** A part declared of type [ty] that carries body data: what the first
    loop of the two extraction functions looks for among the children. *)
Definition directMatch (ty : string) (p : Part) : bool :=
  mime_is ty p && truthy_opt (part_data p).

(** The order in which an extraction function [extract] looks below a
    payload whose own body it does not take: the first direct child that is
    a [directMatch] gives its decoded body; with no such child, the first
    child on which [extract] gives a non-empty string gives that string, and
    with no such child either the result is empty. *)
Definition levelOrder (decoded : option string -> string) (ty : string)
    (extract : Part -> string) (p : Part) : Prop :=
  (forall before part after,
      part_parts p = (before ++ part :: after)%list ->
      forallb (fun q => negb (directMatch ty q)) before = true ->
      directMatch ty part = true ->
      extract p = decoded (part_data part))
  /\ (forallb (fun q => negb (directMatch ty q)) (part_parts p) = true ->
      (forall before part after,
          part_parts p = (before ++ part :: after)%list ->
          forallb (fun q => negb (truthy (extract q))) before = true ->
          truthy (extract part) = true ->
          extract p = extract part)
      /\ (forallb (fun q => negb (truthy (extract q))) (part_parts p) = true ->
          extract p = EmptyString)).

(** The headers [getMessageForReply] reads from a fetched message. *)
Definition headersOfMessage (msg : Message) : list Header :=
  match m_payload msg with Some p => part_headers p | None => [] end.

(** No header of the message carries this name, in any letter case. *)
Definition lacksHeader (msg : Message) (name : string) : bool :=
  forallb (fun h => match h_name h with
                    | Some n => negb (String.eqb (toLowerCase n) (toLowerCase name))
                    | None => true
                    end) (headersOfMessage msg).

(** No line of a header block is the field [name]. *)
Definition noField (name : string) (headers : list string) : bool :=
  forallb (fun h => negb (String.prefix (name ++ ":") h)) headers.

(** *** The structure the specification gives to a composed message

    Following the specification's words: a message body is a leaf (some
    header fields, a blank line, the content) or a multipart of a subtype
    with a boundary and ordered children, rendered in the standard framing:
    every child behind a ["--" boundary] line, the whole closed by
    ["--" boundary "--"]. *)
Inductive Entity : Type :=
| Leaf (fields : list string) (content : string)
| Multipart (subtype boundary : string) (children : list Entity).

Fixpoint render (e : Entity) : string :=
  match e with
  | Leaf fields content => join CRLF fields ++ CRLF ++ CRLF ++ content
  | Multipart subtype boundary children =>
      "Content-Type: multipart/" ++ subtype ++ "; boundary=" ++ quoted boundary
      ++ CRLF ++ CRLF
      ++ join CRLF (map (fun c => "--" ++ boundary ++ CRLF ++ render c) children)
      ++ CRLF ++ "--" ++ boundary ++ "--"
  end.

Definition textLeaf (content : string) : Entity :=
  Leaf ["Content-Type: text/plain; charset=UTF-8"] content.

Definition htmlLeaf (content : string) : Entity :=
  Leaf ["Content-Type: text/html; charset=UTF-8"] content.

Section Expected.
Variable host : Host.

Definition attachmentLeaf (filePath : string) : Entity :=
  let filename := path_basename host filePath in
  Leaf [ "Content-Type: " ++ getMimeType host filename;
         "Content-Transfer-Encoding: base64";
         "Content-Disposition: attachment; filename=" ++ quoted filename ]
       (toBase64 host (or_empty (readFileSync host filePath))).

(** The string the attachment loop pushes for one file that can be read. *)
Definition attachmentPartOf (boundary filePath : string) : string :=
  attachmentPart boundary
    (getMimeType host (path_basename host filePath))
    (path_basename host filePath)
    (toBase64 host (or_empty (readFileSync host filePath))).

(** Is a quote being included: a reply target was resolved and the caller
    did not switch quoting off. *)
Definition quoteIncluded (o : Options.t) (l : Locals) : bool :=
  match replyData l with Some _ => quoteWanted o | None => false end.

(** The HTML rendering of the reply with its quote. *)
Definition htmlReplyOf (body : string) (l : Locals) : string :=
  match replyData l with
  | Some r =>
      formatHtmlReplyBody host body (ReplyData.date r) (ReplyData.from r)
        (ReplyData.body r) (Some (ReplyData.htmlBody r))
  | None => EmptyString
  end.

(** The reply text: one [text/plain] part, or, with a quote, a
    [multipart/alternative] of exactly a [text/plain] and a [text/html] part. *)
Definition replyEntity (o : Options.t) (body : string) (l : Locals) : Entity :=
  if quoteIncluded o l then
    Multipart "alternative" ("alt_" ++ altBoundaryToken host)
      [ textLeaf (bodyText l); htmlLeaf (htmlReplyOf body l) ]
  else textLeaf (bodyText l).

(** The three mutually exclusive shapes, in the specification's priority. *)
Definition expectedEntity (o : Options.t) (body : string) (l : Locals) : Entity :=
  match or_nil (Options.attachments o) with
  | [] => replyEntity o body l
  | files =>
      Multipart "mixed" ("boundary_" ++ boundaryToken host)
        (replyEntity o body l :: map attachmentLeaf files)
  end.

(** The top-level content type, in the same priority. *)
Definition expectedContentType (o : Options.t) (l : Locals) : string :=
  match or_nil (Options.attachments o) with
  | [] => if quoteIncluded o l
          then "multipart/alternative; boundary="
               ++ quoted ("alt_" ++ altBoundaryToken host)
          else "text/plain; charset=UTF-8"
  | _ => "multipart/mixed; boundary="
         ++ quoted ("boundary_" ++ boundaryToken host)
  end.

End Expected.

(** The text [createDraft] and [sendMessage] share, from the auto-fill to
    the finished [emailContent]. *)
Definition composeWith (host : Host) (threadId0 : option string)
    (email : string) (to : option (list string)) (subject body : string)
  : M (Locals * Assembled) :=
  bind (autoFill host threadId0 email to subject body) (fun l =>
  bind (assemble host email body l) (fun a => ret (l, a))).

(** The header block of a finished run, empty when the run threw. *)
Definition headersOfRun (r : Outcome (Locals * Assembled) * Store) : list string :=
  match fst r with
  | Returned la => headers (snd la)
  | Thrown => []
  end.

(** The recipient list of a finished run. *)
Definition recipientsOfRun (r : Outcome (Locals * Assembled) * Store)
  : option (list string) :=
  match fst r with
  | Returned la => recipientList (fst la)
  | Thrown => None
  end.

(** The caller's [options] object as a run leaves it. *)
Definition optionsAfter {A} (r : Outcome A * Store) : Options.t :=
  options (snd r).

Definition succeeded {A} (r : Outcome A * Store) : bool :=
  match fst r with Returned _ => true | Thrown => false end.

(** Every file of the list can be read. *)
Definition readable (host : Host) (files : list string) : bool :=
  forallb (fun f => match readFileSync host f with
                    | Some _ => true
                    | None => false
                    end) files.

End Spec.

(** * A sample host and sample messages

    Used to run the service on concrete inputs.  The codecs are the real
    base64 and base64url ones on byte strings.  The two attribution-line
    renderers stand in for the date-dependent ones of [reply-utils.ts]; no
    statement below looks at what they return. *)

Module Sample.
Import JS ReplyUtils Gmail.

Definition digit64 (url : bool) (n : nat) : ascii :=
  if (n <? 26)%nat then ascii_of_nat (65 + n)
  else if (n <? 52)%nat then ascii_of_nat (97 + (n - 26))
  else if (n <? 62)%nat then ascii_of_nat (48 + (n - 52))
  else if (n =? 62)%nat then (if url then "-" else "+")%char
  else (if url then "_" else "/")%char.

(** [buf.toString("base64")] ([url] false, padded) and
    [buf.toString("base64url")] ([url] true, not padded). *)
Fixpoint encode64 (url : bool) (s : string) : string :=
  let d := digit64 url in
  let pad := if url then EmptyString else "=" in
  match s with
  | EmptyString => EmptyString
  | String a EmptyString =>
      let x := nat_of_ascii a in
      String (d (x / 4)) (String (d (x mod 4 * 16)) (pad ++ pad))
  | String a (String b EmptyString) =>
      let x := nat_of_ascii a in
      let y := nat_of_ascii b in
      String (d (x / 4))
        (String (d (x mod 4 * 16 + y / 16))
           (String (d (y mod 16 * 4)) pad))
  | String a (String b (String c r)) =>
      let x := nat_of_ascii a in
      let y := nat_of_ascii b in
      let z := nat_of_ascii c in
      String (d (x / 4))
        (String (d (x mod 4 * 16 + y / 16))
           (String (d (y mod 16 * 4 + z / 64))
              (String (d (z mod 64)) (encode64 url r))))
  end.

Definition value64 (c : ascii) : option nat :=
  let n := nat_of_ascii c in
  if ((65 <=? n) && (n <=? 90))%nat then Some (n - 65)
  else if ((97 <=? n) && (n <=? 122))%nat then Some (n - 97 + 26)
  else if ((48 <=? n) && (n <=? 57))%nat then Some (n - 48 + 52)
  else if ((n =? 45) || (n =? 43))%nat then Some 62
  else if ((n =? 95) || (n =? 47))%nat then Some 63
  else None.

(** [Buffer.from(s, "base64url").toString()] on well-formed input. *)
Fixpoint decode64 (s : string) : string :=
  match s with
  | String a (String b r) =>
      match value64 a, value64 b with
      | Some p, Some q =>
          String (ascii_of_nat (p * 4 + q / 16))
            match r with
            | String c r' =>
                match value64 c with
                | Some u =>
                    String (ascii_of_nat (q mod 16 * 16 + u / 4))
                      match r' with
                      | String e r'' =>
                          match value64 e with
                          | Some v =>
                              String (ascii_of_nat (u mod 4 * 64 + v))
                                (decode64 r'')
                          | None => EmptyString
                          end
                      | EmptyString => EmptyString
                      end
                | None => EmptyString
                end
            | EmptyString => EmptyString
            end
      | _, _ => EmptyString
      end
  | _ => EmptyString
  end.

Definition hdr (n v : string) : Header :=
  {| h_name := Some n; h_value := Some v |}.

Definition leaf (ty data : string) : Part :=
  mkPart (Some ty) (Some data) [] [].

(** The latest message of thread [t1]: plain and HTML alternatives. *)
Definition lunch : Message :=
  {| m_id := Some "m3";
     m_threadId := Some "t1";
     m_payload := Some (mkPart (Some "multipart/alternative") None
       [ hdr "From" "Alice <alice@example.com>";
         hdr "To" "me@x.com, Bob <bob@y.com>";
         hdr "Cc" "carol@z.com";
         hdr "Subject" "Lunch";
         hdr "Date" "Mon, 6 Jan 2025 18:30:00 +0000";
         hdr "Message-ID" "<m3@mail.example.com>";
         hdr "References" "<m1@mail.example.com> <m2@mail.example.com>" ]
       [ leaf "text/plain" "SGkh"; leaf "text/html" "PGI-aGk8L2I-" ]) |}.

(** A message without [Message-ID] that still carries [References]. *)
Definition notes : Message :=
  {| m_id := Some "n1";
     m_threadId := Some "n1";
     m_payload := Some (mkPart (Some "text/plain") (Some "SGkh")
       [ hdr "From" "dave@w.org";
         hdr "Subject" "Notes";
         hdr "References" "<r1@x.com>" ] []) |}.

(** A message with neither [Message-ID] nor [References]. *)
Definition memo : Message :=
  {| m_id := Some "n2";
     m_threadId := Some "n2";
     m_payload := Some (mkPart (Some "text/plain") (Some "SGkh")
       [ hdr "From" "dave@w.org"; hdr "Subject" "Memo" ] []) |}.

(** An HTML-only message: no part is declared [text/plain]. *)
Definition htmlOnly : Part :=
  mkPart (Some "multipart/alternative") None
    [ hdr "From" "erin@v.net" ]
    [ leaf "text/html" "PGI-aGk8L2I-" ].

Definition newsletter : Message :=
  {| m_id := Some "h1"; m_threadId := Some "h1"; m_payload := Some htmlOnly |}.

Definition host : Host :=
  {| accountKnown := fun e => String.eqb e "me@x.com";
     threads_get := fun id =>
       if String.eqb id "t1"
       then Some [ {| entry_id := "m1" |}; {| entry_id := "m2" |};
                   {| entry_id := "m3" |} ]
       else if String.eqb id "n1" then Some [ {| entry_id := "n1" |} ]
       else if String.eqb id "n2" then Some [ {| entry_id := "n2" |} ]
       else if String.eqb id "h1" then Some [ {| entry_id := "h1" |} ]
       else None;
     messages_get := fun id =>
       if String.eqb id "m3" then Some lunch
       else if String.eqb id "n1" then Some notes
       else if String.eqb id "n2" then Some memo
       else if String.eqb id "h1" then Some newsletter
       else None;
     drafts_create := fun raw thread =>
       Some {| draft_id := Some "d1"; draft_message := None |};
     messages_send := fun raw thread =>
       Some {| m_id := Some "s1"; m_threadId := thread; m_payload := None |};
     readFileSync := fun f =>
       if String.eqb f "/tmp/report.pdf" then Some "%PDF-1.4" else None;
     path_basename := fun f =>
       if String.eqb f "/tmp/report.pdf" then "report.pdf" else f;
     path_extname := fun f =>
       if String.eqb f "report.pdf" then ".pdf" else EmptyString;
     toBase64 := encode64 false;
     toBase64url := encode64 true;
     fromBase64url := decode64;
     formatAttributionLine := fun date sender =>
       "On " ++ date ++ " " ++ sender ++ " wrote:";
     formatHtmlAttributionLine := fun date sender =>
       "On " ++ date ++ " " ++ escapeHtml sender ++ " wrote:";
     boundaryToken := "1736188200000_k3j2h1";
     altBoundaryToken := "1736188200001_9x8y7z" |}.

Definition noOptions : Options.t :=
  {| Options.cc := None; Options.bcc := None; Options.threadId := None;
     Options.replyToMessageId := None; Options.attachments := None;
     Options.replyAll := None; Options.includeQuote := None |}.

Definition replyTo (id : string) : Options.t :=
  {| Options.cc := None; Options.bcc := None; Options.threadId := None;
     Options.replyToMessageId := Some id; Options.attachments := None;
     Options.replyAll := None; Options.includeQuote := None |}.

(** A reply to everyone, without a quote. *)
Definition replyAllTo (id : string) (cc : option (list string)) : Options.t :=
  {| Options.cc := cc; Options.bcc := None; Options.threadId := None;
     Options.replyToMessageId := Some id; Options.attachments := None;
     Options.replyAll := Some true; Options.includeQuote := Some false |}.

(** A quoted reply with one attachment. *)
Definition replyWithReport (id : string) : Options.t :=
  {| Options.cc := None; Options.bcc := None; Options.threadId := None;
     Options.replyToMessageId := Some id;
     Options.attachments := Some ["/tmp/report.pdf"];
     Options.replyAll := None; Options.includeQuote := None |}.

(** A reply without a quote. *)
Definition plainReplyTo (id : string) : Options.t :=
  {| Options.cc := None; Options.bcc := None; Options.threadId := None;
     Options.replyToMessageId := Some id; Options.attachments := None;
     Options.replyAll := None; Options.includeQuote := Some false |}.

Definition fresh (o : Options.t) : Store := {| options := o; calls := [] |}.

End Sample.


(** * Further parts of the service

    Label maps, draft update, label modification and the account store:
    functions of [GmailService] and [AccountStorage] next to the composer. *)

(** ** [listLabels], [getLabelMap], [resolveLabelIds] *)

Module Labels.
Import JS.

(** [Schema$Label], as far as [listLabels] reads it. *)
Record ApiLabel := {
  api_id : option string;
  api_name : option string;
  api_type : option string
}.

(** An entry of the array [listLabels] returns. *)
Record Label := {
  label_id : string;
  label_name : string;
  label_type : string
}.

(** A [Map<string, string>]: the bindings in insertion order, one per key. *)
Definition StrMap : Type := list (string * string).

(** [m.set(k, v)]: a key already bound keeps its place and takes the new
    value; a new key goes last. *)
Fixpoint map_set (k v : string) (m : StrMap) : StrMap :=
  match m with
  | [] => [(k, v)]
  | (k', v') :: r =>
      if String.eqb k' k then (k', v) :: r else (k', v') :: map_set k v r
  end.

(** [m.get(k)]. *)
Fixpoint map_get (k : string) (m : StrMap) : option string :=
  match m with
  | [] => None
  | (k', v') :: r => if String.eqb k' k then Some v' else map_get k r
  end.

(** The mapping [listLabels] applies to [response.data.labels || []]. *)
Definition labelsOf (labels : list ApiLabel) : list Label :=
  map (fun l => {| label_id := or_empty (api_id l);
                   label_name := or_empty (api_name l);
                   label_type := or_empty (api_type l) |}) labels.

Record LabelMap := { idToName : StrMap; nameToId : StrMap }.

(** The loop of [getLabelMap] over the listed labels. *)
Definition labelMapOf (labels : list Label) : LabelMap :=
  fold_left
    (fun acc l =>
       {| idToName := map_set (label_id l) (label_name l) (idToName acc);
          nameToId := map_set (toLowerCase (label_name l)) (label_id l)
                        (nameToId acc) |})
    labels {| idToName := []; nameToId := [] |}.

(** [labels.map((l) => nameToId.get(l.toLowerCase()) || l)]. *)
Definition resolveLabelIds (labels : list string) (nameToId : StrMap)
  : list string :=
  map (fun l => match map_get (toLowerCase l) nameToId with
                | Some v => if truthy v then v else l
                | None => l
                end) labels.

Section Listing.
Variable host : Gmail.Host.
(** The answer of [gmail.users.labels.list]: [None] when the request is
    rejected, else [response.data.labels] (absent is the empty list). *)
Variable labels_list : option (list ApiLabel).

Definition listLabels (email : string) : option (list Label) :=
  if Gmail.accountKnown host email
  then match labels_list with
       | Some ls => Some (labelsOf ls)
       | None => None
       end
  else None.

Definition getLabelMap (email : string) : option LabelMap :=
  match listLabels email with
  | Some labels => Some (labelMapOf labels)
  | None => None
  end.

End Listing.
End Labels.

(** ** [getDraft], [updateDraft] *)

Module Drafts.
Import JS.

(** [Schema$Message] as [updateDraft] reads it from a draft. *)
Record RawMessage := { raw : option string; threadId : option string }.

(** [Schema$Draft]. *)
Record DraftData := { message : option RawMessage }.

(** The body of a [drafts.update] request. *)
Record UpdateRequest := {
  upd_id : string;
  upd_raw : string;
  upd_threadId : option string
}.

Section UpdateDraft.
Variable host : Gmail.Host.
(** [gmail.users.drafts.get] and [gmail.users.drafts.update]; [None] is a
    rejected request. *)
Variable drafts_get : string -> option DraftData.
Variable drafts_update : UpdateRequest -> option DraftData.

Definition getDraft (email draftId : string) : option DraftData :=
  if Gmail.accountKnown host email then drafts_get draftId else None.

(** [existingRaw.indexOf("\n\n")] and the header text cut at it. *)
Definition headersBefore (existingRaw : string) : string :=
  match String.index 0 (String LF (String LF EmptyString)) existingRaw with
  | Some headerEnd =>
      if (0 <? headerEnd)%nat then String.substring 0 headerEnd existingRaw
      else EmptyString
  | None => EmptyString
  end.

(** [updateDraft] up to the request it hands to [drafts.update]. *)
Definition updateDraft_request (email draftId body : string)
  : option UpdateRequest :=
  if Gmail.accountKnown host email then
    match getDraft email draftId with
    | None => None
    | Some draft =>
        match message draft with
        | None => None
        | Some msg =>
            let existingRaw :=
              if truthy_opt (raw msg)
              then Gmail.fromBase64url host (or_empty (raw msg))
              else EmptyString in
            let headers := headersBefore existingRaw in
            let updatedEmail :=
              headers ++ String LF (String LF EmptyString) ++ body in
            let encodedEmail := Gmail.toBase64url host updatedEmail in
            Some {| upd_id := draftId;
                    upd_raw := encodedEmail;
                    upd_threadId := threadId msg |}
        end
    end
  else None.

Definition updateDraft (email draftId body : string) : option DraftData :=
  match updateDraft_request email draftId body with
  | Some r => drafts_update r
  | None => None
  end.

End UpdateDraft.
End Drafts.

(** ** [modifyLabels] *)

Module ModifyLabels.
#[local] Open Scope list_scope.

Inductive Change :=
| AddLabelIds (ids : list string)
| RemoveLabelIds (ids : list string).

(** A [threads.modify] request. *)
Record Request := { req_thread : string; req_change : Change }.

Record LabelOperationResult := {
  threadId : string;
  success : bool;
  error : option string
}.

Section Modify.
Variable host : Gmail.Host.
(** [gmail.users.threads.modify], given the requests answered so far: [None]
    when it succeeds, the error text when it is rejected. *)
Variable threads_modify : list Request -> Request -> option string.

(** One turn of the loop: the [try] block for a thread, from the log
    [sent] of requests made so far. *)
Definition modifyOne (threadId : string) (addLabels removeLabels : list string)
    (sent : list Request) : LabelOperationResult * list Request :=
  let afterAdd :=
    match addLabels with
    | [] => (None, sent)
    | _ =>
        let r := {| req_thread := threadId; req_change := AddLabelIds addLabels |} in
        (threads_modify sent r, sent ++ [r])
    end in
  match afterAdd with
  | (Some e, sent1) =>
      ({| threadId := threadId; success := false; error := Some e |}, sent1)
  | (None, sent1) =>
      match removeLabels with
      | [] => ({| threadId := threadId; success := true; error := None |}, sent1)
      | _ =>
          let r := {| req_thread := threadId;
                      req_change := RemoveLabelIds removeLabels |} in
          match threads_modify sent1 r with
          | Some e =>
              ({| threadId := threadId; success := false; error := Some e |},
               sent1 ++ [r])
          | None =>
              ({| threadId := threadId; success := true; error := None |},
               sent1 ++ [r])
          end
      end
  end.

Fixpoint modifyEach (threadIds : list string) (addLabels removeLabels : list string)
    (sent : list Request) : list LabelOperationResult * list Request :=
  match threadIds with
  | [] => ([], sent)
  | t :: rest =>
      let (r, sent1) := modifyOne t addLabels removeLabels sent in
      let (rs, sent2) := modifyEach rest addLabels removeLabels sent1 in
      (r :: rs, sent2)
  end.

(** [modifyLabels]: [None] when [getGmailClient] throws; else the results
    and the requests made. *)
Definition modifyLabels (email : string) (threadIds : list string)
    (addLabels removeLabels : list string)
  : option (list LabelOperationResult * list Request) :=
  if Gmail.accountKnown host email
  then Some (modifyEach threadIds addLabels removeLabels [])
  else None.

End Modify.
End ModifyLabels.

(** ** src/account-storage.ts *)

Module Accounts.

Record OAuth2 := {
  clientId : string;
  clientSecret : string;
  refreshToken : string;
  accessToken : option string
}.

Record EmailAccount := { email : string; oauth2 : OAuth2 }.

(** The [Map<string, EmailAccount>] of the store, in insertion order. *)
Definition AccountMap : Type := list (string * EmailAccount).

Fixpoint acc_set (k : string) (a : EmailAccount) (m : AccountMap) : AccountMap :=
  match m with
  | [] => [(k, a)]
  | (k', a') :: r =>
      if String.eqb k' k then (k', a) :: r else (k', a') :: acc_set k a r
  end.

Fixpoint acc_get (k : string) (m : AccountMap) : option EmailAccount :=
  match m with
  | [] => None
  | (k', a') :: r => if String.eqb k' k then Some a' else acc_get k r
  end.

Fixpoint acc_has (k : string) (m : AccountMap) : bool :=
  match m with
  | [] => false
  | (k', _) :: r => String.eqb k' k || acc_has k r
  end.

Fixpoint acc_delete (k : string) (m : AccountMap) : AccountMap :=
  match m with
  | [] => []
  | (k', a') :: r => if String.eqb k' k then r else (k', a') :: acc_delete k r
  end.

(** [Array.from(m.values())]. *)
Definition acc_values (m : AccountMap) : list EmailAccount := map snd m.

(** The accounts file: absent, present but not the JSON of an array of
    accounts (reading it throws, which [loadAccounts] ignores), or the JSON
    of an array of accounts, taken as the array it denotes. *)
Inductive AccountsFile :=
| NoFile
| Unreadable
| Saved (data : list EmailAccount).

(** The store object and the file behind it. *)
Record Storage := { accounts : AccountMap; file : AccountsFile }.

(** [loadAccounts], from an empty map. *)
Definition loadAccounts (f : AccountsFile) : AccountMap :=
  match f with
  | Saved data => fold_left (fun m a => acc_set (email a) a m) data []
  | _ => []
  end.

(** [new AccountStorage()] over a given file. *)
Definition open (f : AccountsFile) : Storage :=
  {| accounts := loadAccounts f; file := f |}.

Definition saveAccounts (s : Storage) : Storage :=
  {| accounts := accounts s; file := Saved (acc_values (accounts s)) |}.

Definition addAccount (a : EmailAccount) (s : Storage) : Storage :=
  saveAccounts {| accounts := acc_set (email a) a (accounts s); file := file s |}.

Definition getAccount (e : string) (s : Storage) : option EmailAccount :=
  acc_get e (accounts s).

Definition getAllAccounts (s : Storage) : list EmailAccount :=
  acc_values (accounts s).

Definition hasAccount (e : string) (s : Storage) : bool :=
  acc_has e (accounts s).

Definition deleteAccount (e : string) (s : Storage) : bool * Storage :=
  let deleted := acc_has e (accounts s) in
  let s' := {| accounts := acc_delete e (accounts s); file := file s |} in
  (deleted, if deleted then saveAccounts s' else s').

End Accounts.

(** * Further samples *)

Module SampleMore.
Import Gmail.

(** A quoted reply whose one attachment is not on disk. *)
Definition replyWithMissing (id : string) : Options.t :=
  {| Options.cc := None; Options.bcc := None; Options.threadId := None;
     Options.replyToMessageId := Some id;
     Options.attachments := Some ["/tmp/missing.pdf"];
     Options.replyAll := None; Options.includeQuote := None |}.

(** A new message in a given thread, with a blind copy. *)
Definition inThread (tid : string) : Options.t :=
  {| Options.cc := None; Options.bcc := Some ["boss@x.com"];
     Options.threadId := Some tid;
     Options.replyToMessageId := None; Options.attachments := None;
     Options.replyAll := None; Options.includeQuote := None |}.

(** A reply that names another thread than the target's. *)
Definition replyInThread (id tid : string) : Options.t :=
  {| Options.cc := None; Options.bcc := None;
     Options.threadId := Some tid;
     Options.replyToMessageId := Some id; Options.attachments := None;
     Options.replyAll := None; Options.includeQuote := Some false |}.

End SampleMore.

(** * Vocabulary of the further statements *)

Module SpecMore.
Import JS ReplyUtils Gmail.

(** What [escapeHtml] makes of one code unit. *)
Definition escapeChar (c : ascii) : string :=
  if Ascii.eqb c "&" then "&amp;"
  else if Ascii.eqb c "<" then "&lt;"
  else if Ascii.eqb c ">" then "&gt;"
  else if Ascii.eqb c DQUOTE then "&quot;"
  else String c EmptyString.

(** Taking the quote marker off a line, and off every line of a text. *)
Definition unquoteLine (line : string) : string :=
  match line with
  | String ">" (String " " r) => r
  | _ => line
  end.

Definition unquote (text : string) : string :=
  join (String LF EmptyString) (map unquoteLine (split LF text)).

(** No code unit of [s] is a line terminator. *)
Fixpoint oneLine (s : string) : bool :=
  match s with
  | EmptyString => true
  | String c r => negb (is_line_terminator c) && oneLine r
  end.

(** A request that submits a message, as opposed to one that fetches. *)
Definition isSubmit (c : Call) : bool :=
  match c with
  | DraftsCreate _ _ | MessagesSend _ _ => true
  | _ => false
  end.

(** A part of the tree carries body data. *)
Definition hasData (p : Part) : bool := truthy_opt (part_data p).

(** Two line feeds in a row, the blank line [updateDraft] looks for. *)
Definition blankLine : string := String LF (String LF EmptyString).

(** Every line feed of [s] directly follows a carriage return; [prevCR]
    tells whether the code unit before [s] is one. *)
Fixpoint lfGuarded (prevCR : bool) (s : string) : bool :=
  match s with
  | EmptyString => true
  | String c r =>
      (if Ascii.eqb c LF then prevCR else true) && lfGuarded (Ascii.eqb c CR) r
  end.

(** The store's map is well formed: one binding per address, each under
    the address of its account. *)
Definition wellKeyed (m : Accounts.AccountMap) : Prop :=
  NoDup (map fst m)
  /\ Forall (fun ka => fst ka = Accounts.email (snd ka)) m.

End SpecMore.

(** * Properties *)

(** ** Strings: trimming, splitting, joining *)

Module StringFacts.
Import JS Spec.

Lemma append_assoc (a b c : string) : (a ++ b) ++ c = a ++ (b ++ c).
Proof. induction a as [| x a IH]; simpl; [reflexivity | now rewrite IH]. Qed.

Lemma append_nil_r (a : string) : a ++ EmptyString = a.
Proof. induction a as [| x a IH]; simpl; [reflexivity | now rewrite IH]. Qed.

Lemma truthy_false (s : string) : truthy s = false <-> s = EmptyString.
Proof. destruct s; simpl; split; intros H; congruence. Qed.

Lemma truthy_true (s : string) : truthy s = true <-> s <> EmptyString.
Proof. destruct s; simpl; split; intros H; congruence. Qed.

Lemma trimEnd_cons_nonws (c : ascii) (r : string) :
  is_ws c = false ->
  trimEnd (String c r) = String c (trimEnd r).
Proof. intros H. simpl. rewrite H. destruct (trimEnd r); reflexivity. Qed.

Lemma trimEnd_cons_truthy (c : ascii) (r : string) :
  truthy (trimEnd r) = true ->
  trimEnd (String c r) = String c (trimEnd r).
Proof. intros H. simpl. destruct (trimEnd r); [discriminate | reflexivity]. Qed.

Lemma trimEnd_idem (s : string) : trimEnd (trimEnd s) = trimEnd s.
Proof.
  induction s as [| c r IH]; [reflexivity |].
  simpl. destruct (trimEnd r) as [| d r'] eqn:E.
  - destruct (is_ws c) eqn:W; [reflexivity |].
    simpl. rewrite W. reflexivity.
  - rewrite trimEnd_cons_truthy; rewrite IH; reflexivity.
Qed.

Lemma trimStart_clean (s : string) : starts_clean (trimStart s) = true.
Proof.
  induction s as [| c r IH]; [reflexivity |].
  simpl. destruct (is_ws c) eqn:W; [exact IH |]. simpl. now rewrite W.
Qed.

Lemma trimStart_of_clean (s : string) :
  starts_clean s = true -> trimStart s = s.
Proof.
  destruct s as [| c r]; [reflexivity |]. simpl.
  destruct (is_ws c); [discriminate | reflexivity].
Qed.

Lemma trimEnd_clean (s : string) :
  starts_clean s = true -> starts_clean (trimEnd s) = true.
Proof.
  destruct s as [| c r]; [reflexivity |]. simpl.
  destruct (is_ws c) eqn:W; [discriminate |]. intros _.
  destruct (trimEnd r); simpl; now rewrite W.
Qed.

Lemma trim_clean (s : string) : starts_clean (trim s) = true.
Proof. apply trimEnd_clean, trimStart_clean. Qed.

Lemma trimEnd_trim (s : string) : trimEnd (trim s) = trim s.
Proof. apply trimEnd_idem. Qed.

Lemma trim_idem (s : string) : trim (trim s) = trim s.
Proof.
  unfold trim at 1. rewrite trimStart_of_clean by apply trim_clean.
  apply trimEnd_trim.
Qed.

Lemma trimEnd_all_ws (s : string) :
  truthy (trimEnd s) = false <-> all_ws s = true.
Proof.
  induction s as [| c r IH]; simpl; [tauto |].
  destruct (trimEnd r) eqn:E; simpl in *.
  - destruct (is_ws c); simpl; [| intuition congruence].
    split; intros _; [now apply IH | reflexivity].
  - split; [discriminate |]. intros H.
    apply andb_true_iff in H as [_ H]. apply IH in H. discriminate.
Qed.

Lemma trimStart_all_ws (s : string) :
  all_ws (trimStart s) = all_ws s.
Proof.
  induction s as [| c r IH]; [reflexivity |]. simpl.
  destruct (is_ws c) eqn:W; simpl; [exact IH | now rewrite W].
Qed.

Lemma trim_all_ws (s : string) :
  truthy (trim s) = false <-> all_ws s = true.
Proof. unfold trim. rewrite trimEnd_all_ws, trimStart_all_ws. tauto. Qed.

(** *** [split] and [join] *)

Lemma split_not_nil (c : ascii) (s : string) : split c s <> [].
Proof.
  induction s as [| d r IH]; simpl; [discriminate |].
  destruct (Ascii.eqb d c); [discriminate |].
  destruct (split c r); [congruence | discriminate].
Qed.

Lemma split_cons_other (c d : ascii) (r : string) :
  Ascii.eqb d c = false ->
  exists h t, split c r = h :: t /\ split c (String d r) = String d h :: t.
Proof.
  intros H. simpl. rewrite H.
  destruct (split c r) as [| h t] eqn:E.
  - now apply split_not_nil in E.
  - now exists h, t.
Qed.

Lemma split_free (c : ascii) (s : string) :
  Forall (fun x => mem_char c x = false) (split c s).
Proof.
  induction s as [| d r IH]; simpl.
  - constructor; [reflexivity | constructor].
  - destruct (Ascii.eqb d c) eqn:E.
    + constructor; [reflexivity | exact IH].
    + destruct (split c r) as [| h t]; simpl.
      * constructor; [simpl; now rewrite E | constructor].
      * inversion IH; subst. constructor; [simpl; now rewrite E | assumption].
Qed.

Lemma split_no_sep (c : ascii) (s : string) :
  mem_char c s = false -> split c s = [s].
Proof.
  induction s as [| d r IH]; simpl; [reflexivity |].
  intros H. apply orb_false_iff in H as [H1 H2].
  rewrite H1, (IH H2). reflexivity.
Qed.

Lemma split_app_free (c : ascii) (x r : string) :
  mem_char c x = false ->
  split c (x ++ String c r) = x :: split c r.
Proof.
  induction x as [| d x IH]; simpl.
  - intros _. now rewrite Ascii.eqb_refl.
  - intros H. apply orb_false_iff in H as [H1 H2].
    rewrite H1, (IH H2). reflexivity.
Qed.

(** Splitting what was joined gives the pieces back. *)
Lemma split_join (c : ascii) (xs : list string) :
  xs <> [] ->
  Forall (fun x => mem_char c x = false) xs ->
  split c (join (String c EmptyString) xs) = xs.
Proof.
  induction xs as [| x xs IH]; [congruence |].
  intros _ HF. inversion HF as [| ? ? Hx Hxs]; subst.
  destruct xs as [| y ys].
  - simpl. now apply split_no_sep.
  - change (join (String c EmptyString) (x :: y :: ys))
      with (x ++ String c (join (String c EmptyString) (y :: ys))).
    rewrite split_app_free by assumption.
    f_equal. apply IH; [discriminate | assumption].
Qed.

(** Joining what was split gives the string back. *)
Lemma join_split (c : ascii) (s : string) :
  join (String c EmptyString) (split c s) = s.
Proof.
  induction s as [| d r IH]; [reflexivity |].
  simpl. destruct (Ascii.eqb d c) eqn:E.
  - apply Ascii.eqb_eq in E; subst d.
    destruct (split c r) as [| h t] eqn:S; [now apply split_not_nil in S |].
    change (join (String c EmptyString) (EmptyString :: h :: t))
      with (String c (join (String c EmptyString) (h :: t))).
    now rewrite IH.
  - destruct (split c r) as [| h t] eqn:S; [now apply split_not_nil in S |].
    destruct t as [| h' t'].
    + simpl in *. now rewrite IH.
    + change (String d (h ++ String c (join (String c EmptyString) (h' :: t')))
              = String d r).
      f_equal. exact IH.
Qed.

(** A trailing separator opens one more, empty, piece. *)
Lemma split_trailing_sep (c : ascii) (s : string) :
  split c (s ++ String c EmptyString) = (split c s ++ [EmptyString])%list.
Proof.
  induction s as [| d r IH]; simpl.
  - now rewrite Ascii.eqb_refl.
  - destruct (Ascii.eqb d c); rewrite IH; [reflexivity |].
    destruct (split c r) as [| h t] eqn:S; [now apply split_not_nil in S |].
    reflexivity.
Qed.

Lemma mem_char_app (c : ascii) (a b : string) :
  mem_char c (a ++ b) = mem_char c a || mem_char c b.
Proof.
  induction a as [| d a IH]; simpl; [reflexivity |].
  rewrite IH. now rewrite orb_assoc.
Qed.

Lemma length_filter_map {A B} (p : B -> bool) (f : A -> B) (l : list A) :
  List.length (filter p (map f l)) = List.length (filter (fun x => p (f x)) l).
Proof.
  induction l as [| x l IH]; simpl; [reflexivity |].
  destruct (p (f x)); simpl; congruence.
Qed.

Lemma filter_ext_length {A} (p q : A -> bool) (l : list A) :
  (forall x, p x = q x) ->
  List.length (filter p l) = List.length (filter q l).
Proof. intros H. now rewrite (filter_ext _ _ H). Qed.

End StringFacts.

(** ** The pure reply helpers *)

Module ReplyUtilsProps.
Import JS ReplyUtils Spec StringFacts.

(** *** [formatQuotedBody] *)

Lemma quoteLine_no_LF (line : string) :
  mem_char LF line = false -> mem_char LF (quoteLine line) = false.
Proof. intros H. unfold quoteLine. rewrite mem_char_app, H. reflexivity. Qed.

Lemma quoted_lines_no_LF (body : string) :
  Forall (fun x => mem_char LF x = false) (map quoteLine (split LF body)).
Proof.
  apply Forall_map. eapply Forall_impl; [| apply split_free].
  intros a Ha. now apply quoteLine_no_LF.
Qed.

(** C9.  The empty body is quoted as the empty string.  For every other
    body the lines of the result (its pieces between line feeds) are the
    lines of the body, in order, each with "> " put in front; and the result
    is those lines joined by line feeds.  A body that ends in a line feed
    yields a result whose last line is exactly "> ". *)
Theorem formatQuotedBody_lines (body : string) :
  formatQuotedBody EmptyString = EmptyString
  /\ (truthy body = true ->
      split LF (formatQuotedBody body) = map quoteLine (split LF body)
      /\ formatQuotedBody body
         = join (String LF EmptyString) (map quoteLine (split LF body)))
  /\ List.last (split LF (formatQuotedBody (body ++ String LF EmptyString)))
       EmptyString = "> ".
Proof.
  assert (Hlines : forall b, truthy b = true ->
            split LF (formatQuotedBody b) = map quoteLine (split LF b)).
  { intros b Hb. unfold formatQuotedBody. rewrite Hb. simpl negb. cbv iota.
    apply split_join; [| apply quoted_lines_no_LF].
    intros E. apply map_eq_nil in E. now apply split_not_nil in E. }
  split; [reflexivity |]. split.
  - intros Hb. split; [now apply Hlines |].
    unfold formatQuotedBody. now rewrite Hb.
  - rewrite Hlines by (destruct body; reflexivity).
    rewrite split_trailing_sep, map_app. simpl map.
    now rewrite last_last.
Qed.

Lemma formatQuotedBody_lines_witness :
  truthy ("a" ++ String LF "b") = true
  /\ split LF (formatQuotedBody ("a" ++ String LF "b")) = ["> a"; "> b"].
Proof.
  split; [reflexivity |].
  exact (proj1 (proj1 (proj2 (formatQuotedBody_lines ("a" ++ String LF "b")))
                  eq_refl)).
Defined.

(** *** [formatReplySubject] *)

Lemma has_re_prefix_Re (t : string) : has_re_prefix ("Re: " ++ t) = true.
Proof. reflexivity. Qed.

Lemma trim_Re (t : string) :
  truthy t = true -> trimEnd t = t -> trim ("Re: " ++ t) = "Re: " ++ t.
Proof.
  intros Ht Hend. unfold trim.
  change (trimStart ("Re: " ++ t)) with ("Re: " ++ t).
  change ("Re: " ++ t) with (String "R" (String "e" (String ":" (String " " t)))).
  assert (H0 : truthy (trimEnd (String " " t)) = true).
  { rewrite trimEnd_cons_truthy; [reflexivity | now rewrite Hend]. }
  rewrite !trimEnd_cons_nonws by reflexivity.
  rewrite trimEnd_cons_truthy by now rewrite Hend.
  now rewrite Hend.
Qed.

(** C8, the claim as stated, fails on the empty subject: the first call
    gives "Re: ", whose trimmed form "Re:" already carries the prefix, so
    the second call returns "Re:". *)
Lemma formatReplySubject_not_idempotent :
  formatReplySubject (formatReplySubject EmptyString)
  <> formatReplySubject EmptyString.
Proof. vm_compute. discriminate. Qed.

(** C8, amended.  When the trimmed subject starts with "re:" in any letter
    case, the trimmed subject is returned as it is; otherwise "Re: " is put
    in front of the trimmed subject.  Applying the function twice gives the
    same as applying it once for every subject that is not empty after
    trimming. *)
Theorem formatReplySubject_idempotent (subject : string) :
  (has_re_prefix (trim subject) = true ->
   formatReplySubject subject = trim subject)
  /\ (has_re_prefix (trim subject) = false ->
      formatReplySubject subject = "Re: " ++ trim subject)
  /\ (truthy (trim subject) = true ->
      formatReplySubject (formatReplySubject subject)
      = formatReplySubject subject).
Proof.
  assert (Hyes : has_re_prefix (trim subject) = true ->
                 formatReplySubject subject = trim subject).
  { intros P. unfold formatReplySubject. now rewrite P. }
  assert (Hno : has_re_prefix (trim subject) = false ->
                formatReplySubject subject = "Re: " ++ trim subject).
  { intros P. unfold formatReplySubject. now rewrite P. }
  split; [exact Hyes |]. split; [exact Hno |]. intros Ht.
  destruct (has_re_prefix (trim subject)) eqn:P.
  - rewrite (Hyes eq_refl). unfold formatReplySubject.
    now rewrite trim_idem, P.
  - rewrite (Hno eq_refl). unfold formatReplySubject.
    rewrite trim_Re by (assumption || apply trimEnd_trim).
    now rewrite has_re_prefix_Re.
Qed.

Lemma formatReplySubject_idempotent_witness :
  truthy (trim "  Meeting tomorrow ") = true
  /\ formatReplySubject (formatReplySubject "  Meeting tomorrow ")
     = formatReplySubject "  Meeting tomorrow ".
Proof.
  split; [reflexivity |].
  exact (proj2 (proj2 (formatReplySubject_idempotent "  Meeting tomorrow "))
           eq_refl).
Defined.

(** *** [parseEmailList] *)

Lemma length_pos_truthy (s : string) :
  (0 <? String.length s)%nat = truthy s.
Proof. destruct s; reflexivity. Qed.

Lemma all_ws_no_comma (s : string) : all_ws s = true -> mem_char "," s = false.
Proof.
  induction s as [| c r IH]; [reflexivity |]. simpl.
  intros H. apply andb_true_iff in H as [Hc Hr].
  rewrite (IH Hr), orb_false_r.
  destruct (Ascii.eqb c ",") eqn:E; [| reflexivity].
  apply Ascii.eqb_eq in E. subst c. discriminate.
Qed.

Lemma parsed_email_truthy (seg : string) :
  truthy (email (parseEmailAddress (trim seg)))
  = truthy (trim seg) && negb (blankAddress (trim seg)).
Proof.
  unfold parseEmailAddress, blankAddress. rewrite trim_idem.
  destruct (match_name_address (trim seg)) as [[g1 g2] |] eqn:E; simpl.
  - rewrite negb_involutive.
    destruct (trim seg); [discriminate | reflexivity].
  - now rewrite andb_true_r.
Qed.

(** C7, the claim as stated, fails on a segment such as [x < >]: it is not
    empty, yet the address parsed from it is, and the list drops it. *)
Lemma parseEmailList_length_counterexample :
  List.length (parseEmailList "x < >")
  <> List.length (nonEmptySegments "x < >").
Proof. vm_compute. discriminate. Qed.

(** C7, amended.  The list has one entry for every comma-separated segment
    that is not empty after trimming and is not a [name <address>] form with
    a white-space-only address; empty and white-space-only headers give the
    empty list. *)
Theorem parseEmailList_length (header : string) :
  List.length (parseEmailList header) = List.length (countedSegments header)
  /\ (truthy (trim header) = false -> parseEmailList header = []).
Proof.
  split.
  - unfold parseEmailList, countedSegments.
    destruct (negb (truthy header) || negb (truthy (trim header))) eqn:G.
    + assert (W : all_ws header = true).
      { apply trim_all_ws. apply orb_true_iff in G as [G | G].
        - apply negb_true_iff, truthy_false in G. now subst.
        - now apply negb_true_iff in G. }
      rewrite split_no_sep by now apply all_ws_no_comma.
      simpl. apply trim_all_ws in W. now rewrite W.
    + rewrite length_filter_map. apply filter_ext_length.
      intros seg. rewrite length_pos_truthy. apply parsed_email_truthy.
  - intros H. unfold parseEmailList. rewrite H. simpl.
    now rewrite orb_true_r.
Qed.

Lemma parseEmailList_length_witness :
  truthy (trim "   ") = false /\ parseEmailList "   " = [].
Proof.
  split; [reflexivity |].
  exact (proj2 (parseEmailList_length "   ") eq_refl).
Defined.

(** *** [filterSelfFromRecipients] *)

Lemma filterSelf_In (recipients : list string) (selfEmail e : string) :
  In e (filterSelfFromRecipients recipients selfEmail)
  <-> In e recipients /\ toLowerCase e <> toLowerCase selfEmail.
Proof.
  unfold filterSelfFromRecipients. rewrite filter_In.
  rewrite negb_true_iff, String.eqb_neq. tauto.
Qed.

Lemma filterSelf_app (xs ys : list string) (selfEmail : string) :
  filterSelfFromRecipients (xs ++ ys) selfEmail
  = (filterSelfFromRecipients xs selfEmail
     ++ filterSelfFromRecipients ys selfEmail)%list.
Proof. unfold filterSelfFromRecipients. apply filter_app. Qed.

Lemma filterSelf_cons (x : string) (xs : list string) (selfEmail : string) :
  filterSelfFromRecipients (x :: xs) selfEmail
  = if String.eqb (toLowerCase x) (toLowerCase selfEmail)
    then filterSelfFromRecipients xs selfEmail
    else x :: filterSelfFromRecipients xs selfEmail.
Proof.
  unfold filterSelfFromRecipients. simpl.
  now destruct (String.eqb (toLowerCase x) (toLowerCase selfEmail)).
Qed.

End ReplyUtilsProps.

(** ** The reply resolver *)

Module ResolverProps.
Import JS ReplyUtils Gmail Spec StringFacts.
#[local] Open Scope list_scope.

Lemma nth_error_last {A} (ms : list A) (m : A) :
  nth_error (ms ++ [m]) (List.length (ms ++ [m]) - 1) = Some m.
Proof.
  rewrite last_length. replace (S (List.length ms) - 1) with (List.length ms) by lia.
  rewrite nth_error_app2 by lia. now rewrite Nat.sub_diag.
Qed.

Lemma resolveMessageId_run (host : Host) (id : string) (st : Store) :
  exists target,
    resolveMessageId host id st
    = (Returned target,
       {| options := options st; calls := calls st ++ [ThreadsGet id] |})
    /\ (threads_get host id = None -> target = id)
    /\ (threads_get host id = Some [] -> target = id)
    /\ (forall ms m, threads_get host id = Some (ms ++ [m]) ->
        target = entry_id m).
Proof.
  unfold resolveMessageId, tryCatch, gmail_threads_get, request, bind, ret.
  destruct (threads_get host id) as [ms |] eqn:T.
  - destruct ms as [| m0 ms'] using rev_ind.
    + exists id. simpl. repeat split; try congruence.
      intros ms m E. inversion E as [E']. now destruct ms.
    + clear IHms'. exists (entry_id m0).
      rewrite nth_error_last, last_length. simpl.
      repeat split; try congruence.
      * intros E. inversion E as [E']. now destruct ms'.
      * intros ms m E. inversion E as [E'].
        apply app_inj_tail in E' as [_ E']. now subst.
  - exists id. simpl. repeat split; congruence.
Qed.

Lemma getMessageForReply_run (host : Host) (email id : string) (st : Store) :
  accountKnown host email = true ->
  exists target,
    getMessageForReply host email id st
    = (match messages_get host target with
       | Some msg => Returned (replyDataOf host msg)
       | None => Thrown
       end,
       {| options := options st;
          calls := calls st ++ [ThreadsGet id; MessagesGet target] |})
    /\ (threads_get host id = None -> target = id)
    /\ (threads_get host id = Some [] -> target = id)
    /\ (forall ms m, threads_get host id = Some (ms ++ [m]) ->
        target = entry_id m).
Proof.
  intros Hacc.
  destruct (resolveMessageId_run host id st) as (target & Hrun & Hrest).
  exists target. split; [| exact Hrest].
  unfold getMessageForReply, getGmailClient, bind. rewrite Hacc.
  unfold ret at 1. rewrite Hrun.
  unfold gmail_messages_get, request, ret. simpl.
  rewrite <- app_assoc. simpl.
  now destruct (messages_get host target).
Qed.

Lemma getMessageForReply_options (host : Host) (email id : string) (st : Store) :
  options (snd (getMessageForReply host email id st)) = options st.
Proof.
  destruct (accountKnown host email) eqn:Hacc.
  - destruct (getMessageForReply_run host email id st Hacc) as (t & -> & _).
    reflexivity.
  - unfold getMessageForReply, getGmailClient, bind. rewrite Hacc. reflexivity.
Qed.

Lemma getMessageForReply_returned
    (host : Host) (email id : string) (st st1 : Store) (rd : ReplyData.t) :
  getMessageForReply host email id st = (Returned rd, st1) ->
  accountKnown host email = true
  /\ exists target msg,
       messages_get host target = Some msg /\ rd = replyDataOf host msg.
Proof.
  intros H. destruct (accountKnown host email) eqn:Hacc.
  - split; [reflexivity |].
    destruct (getMessageForReply_run host email id st Hacc) as (t & E & _).
    rewrite E in H. exists t.
    destruct (messages_get host t) as [msg |]; [| discriminate].
    exists msg. split; [reflexivity |]. now inversion H.
  - unfold getMessageForReply, getGmailClient, bind in H. rewrite Hacc in H.
    discriminate.
Qed.

(** C1.  For every identifier, with a known account, [getMessageForReply]
    sends exactly two requests: first the thread fetch of the identifier,
    then the message fetch of a target id, whose answer it turns into the
    reply data (or fails with it).  When the thread fetch answers with a
    non-empty message list the target is the last message of the list, the
    third of three; when the thread fetch fails, or the list is empty, the
    target is the identifier itself. *)
Theorem getMessageForReply_target
    (host : Host) (email id : string) (st : Store) :
  accountKnown host email = true ->
  exists target,
    calls (snd (getMessageForReply host email id st))
    = (calls st ++ [ThreadsGet id; MessagesGet target])%list
    /\ fst (getMessageForReply host email id st)
       = match messages_get host target with
         | Some msg => Returned (replyDataOf host msg)
         | None => Thrown
         end
    /\ (forall ms m, threads_get host id = Some (ms ++ [m])%list ->
        target = entry_id m)
    /\ (forall m1 m2 m3, threads_get host id = Some [m1; m2; m3] ->
        target = entry_id m3)
    /\ (threads_get host id = None -> target = id)
    /\ (threads_get host id = Some [] -> target = id).
Proof.
  intros Hacc.
  destruct (getMessageForReply_run host email id st Hacc)
    as (target & E & Hnone & Hnil & Hlast).
  exists target. rewrite E. simpl.
  repeat split; try assumption.
  intros m1 m2 m3 T. exact (Hlast [m1; m2] m3 T).
Qed.

Lemma getMessageForReply_target_witness :
  accountKnown Sample.host "me@x.com" = true
  /\ calls (snd (getMessageForReply Sample.host "me@x.com" "t1"
                   (Sample.fresh Sample.noOptions)))
     = [ThreadsGet "t1"; MessagesGet "m3"].
Proof.
  split; [reflexivity |].
  destruct (getMessageForReply_target Sample.host "me@x.com" "t1"
              (Sample.fresh Sample.noOptions) eq_refl)
    as (target & Hcalls & _ & _ & Hthree & _).
  rewrite Hcalls.
  rewrite (Hthree _ _ _ eq_refl). reflexivity.
Defined.

(** *** Body extraction *)

Lemma Part_induction (P : Part -> Prop) :
  (forall m d hs ps, Forall P ps -> P (mkPart m d hs ps)) ->
  forall p, P p.
Proof.
  intros H. fix IH 1. intros [m d hs ps]. apply H.
  induction ps as [| q qs IHqs]; constructor; [apply IH | exact IHqs].
Qed.

Lemma find_first {A} (f : A -> bool) (before after : list A) (x : A) :
  forallb (fun y => negb (f y)) before = true ->
  f x = true ->
  find f (before ++ x :: after) = Some x.
Proof.
  induction before as [| y before IH]; simpl; intros Hb Hx.
  - now rewrite Hx.
  - apply andb_true_iff in Hb as [Hy Hb]. apply negb_true_iff in Hy.
    rewrite Hy. now apply IH.
Qed.

Lemma find_absent {A} (f : A -> bool) (l : list A) :
  forallb (fun y => negb (f y)) l = true -> find f l = None.
Proof.
  induction l as [| y l IH]; simpl; [reflexivity |]. intros Hb.
  apply andb_true_iff in Hb as [Hy Hb]. apply negb_true_iff in Hy.
  rewrite Hy. now apply IH.
Qed.

Lemma first_truthy_first {A} (f : A -> string) (before after : list A) (x : A) :
  forallb (fun y => negb (truthy (f y))) before = true ->
  truthy (f x) = true ->
  first_truthy f (before ++ x :: after) = f x.
Proof.
  induction before as [| y before IH]; simpl; intros Hb Hx.
  - now rewrite Hx.
  - apply andb_true_iff in Hb as [Hy Hb]. apply negb_true_iff in Hy.
    rewrite Hy. now apply IH.
Qed.

Lemma first_truthy_none {A} (f : A -> string) (l : list A) :
  forallb (fun y => negb (truthy (f y))) l = true ->
  first_truthy f l = EmptyString.
Proof.
  induction l as [| y l IH]; simpl; [reflexivity |]. intros Hb.
  apply andb_true_iff in Hb as [Hy Hb]. apply negb_true_iff in Hy.
  rewrite Hy. now apply IH.
Qed.

Lemma first_truthy_cases {A} (f : A -> string) (l : list A) :
  first_truthy f l = EmptyString
  \/ exists x, In x l /\ first_truthy f l = f x.
Proof.
  induction l as [| y l IH]; simpl; [now left |].
  destruct (truthy (f y)).
  - right. exists y. split; [now left | reflexivity].
  - destruct IH as [IH | (x & Hin & IH)]; [now left |].
    right. exists x. split; [now right | exact IH].
Qed.

Lemma allParts_self (p : Part) : In p (allParts p).
Proof. destruct p. simpl. now left. Qed.

Lemma allParts_child (m d : option string) (hs : list Header)
    (ps : list Part) (child q : Part) :
  In child ps -> In q (allParts child) -> In q (allParts (mkPart m d hs ps)).
Proof.
  intros Hc Hq. simpl. right. apply in_flat_map. now exists child.
Qed.

(** What the HTML extraction returns is empty or the decoded body of a
    part of the tree that is declared [text/html]. *)
Lemma decodeHtmlBody_source (host : Host) (p : Part) :
  decodeHtmlBody host p = EmptyString
  \/ exists q, In q (allParts p)
               /\ directMatch "text/html" q = true
               /\ decodeHtmlBody host p = decode host (part_data q).
Proof.
  induction p as [m d hs ps IH] using Part_induction.
  simpl decodeHtmlBody.
  destruct (truthy_opt d && mime_is "text/html" (mkPart m d hs ps)) eqn:Own.
  - right. exists (mkPart m d hs ps). split; [apply allParts_self |].
    split; [| reflexivity].
    unfold directMatch. simpl part_data.
    apply andb_true_iff in Own as [-> ->]. reflexivity.
  - destruct (find _ ps) as [part |] eqn:F.
    + apply find_some in F as [Hin Hm]. right. exists part.
      split; [eapply allParts_child; eauto using allParts_self |].
      split; [exact Hm | reflexivity].
    + destruct (first_truthy_cases (decodeHtmlBody host) ps)
        as [E | (x & Hin & E)]; [now left |].
      rewrite E. rewrite Forall_forall in IH.
      destruct (IH x Hin) as [E' | (q & Hq & Hm & E')]; [now left |].
      right. exists q. split; [eapply allParts_child; eauto |].
      split; assumption.
Qed.

Lemma decodeHtmlBody_no_html (host : Host) (p : Part) :
  forallb (fun q => negb (mime_is "text/html" q)) (allParts p) = true ->
  decodeHtmlBody host p = EmptyString.
Proof.
  intros H.
  destruct (decodeHtmlBody_source host p) as [E | (q & Hq & Hm & _)];
    [exact E |].
  rewrite forallb_forall in H. specialize (H q Hq).
  unfold directMatch in Hm. apply andb_true_iff in Hm as [Hm _].
  rewrite Hm in H. discriminate.
Qed.

(** C5, the claim as stated, fails for the plain-text extraction: on an
    HTML-only message, where no part is declared [text/plain], it returns
    the decoded body of the [text/html] part. *)
Lemma decodeMessageBody_returns_html :
  decodeMessageBody Sample.host Sample.htmlOnly = "<b>hi</b>"
  /\ forallb (fun q => negb (mime_is "text/plain" q))
       (allParts Sample.htmlOnly) = true.
Proof. vm_compute. split; reflexivity. Qed.

(** C5, amended.  The plain-text extraction returns the payload's own body
    when it has one, whatever its declared type; otherwise the body of the
    first direct child that is declared [text/plain] and has a body;
    otherwise the result of the first child, in order, on which the
    extraction itself gives a non-empty string, and the empty string when
    there is none.  The HTML extraction does the same, except that the
    payload's own body counts only when the payload is declared
    [text/html]; what it returns is empty or the body of a [text/html]
    part, and it is empty when the tree has no [text/html] part. *)
Theorem body_extraction_order (host : Host) (p : Part) :
  (truthy_opt (part_data p) = true ->
   decodeMessageBody host p = decode host (part_data p))
  /\ (truthy_opt (part_data p) = false ->
      levelOrder (decode host) "text/plain" (decodeMessageBody host) p)
  /\ (truthy_opt (part_data p) && mime_is "text/html" p = true ->
      decodeHtmlBody host p = decode host (part_data p))
  /\ (truthy_opt (part_data p) && mime_is "text/html" p = false ->
      levelOrder (decode host) "text/html" (decodeHtmlBody host) p)
  /\ (decodeHtmlBody host p = EmptyString
      \/ exists q, In q (allParts p) /\ directMatch "text/html" q = true
                   /\ decodeHtmlBody host p = decode host (part_data q))
  /\ (forallb (fun q => negb (mime_is "text/html" q)) (allParts p) = true ->
      decodeHtmlBody host p = EmptyString).
Proof.
  split; [| split; [| split; [| split; [| split]]]];
    try apply decodeHtmlBody_source; try apply decodeHtmlBody_no_html;
    destruct p as [m d hs ps]; simpl part_data; simpl part_parts.
  - intros Own. simpl. now rewrite Own.
  - intros Own. unfold levelOrder. simpl part_parts. split.
    + intros before part after -> Hb Hp. simpl. rewrite Own.
      change (fun part0 => mime_is "text/plain" part0 && truthy_opt (part_data part0))
        with (directMatch "text/plain").
      now rewrite (find_first _ _ _ _ Hb Hp).
    + intros Hnone. simpl decodeMessageBody. rewrite Own.
      change (fun part0 => mime_is "text/plain" part0 && truthy_opt (part_data part0))
        with (directMatch "text/plain").
      rewrite (find_absent _ _ Hnone). split.
      * intros before part after -> Hb Hp. now apply first_truthy_first.
      * apply first_truthy_none.
  - intros Own. simpl. now rewrite Own.
  - intros Own. unfold levelOrder. simpl part_parts. split.
    + intros before part after -> Hb Hp. simpl. rewrite Own.
      change (fun part0 => mime_is "text/html" part0 && truthy_opt (part_data part0))
        with (directMatch "text/html").
      now rewrite (find_first _ _ _ _ Hb Hp).
    + intros Hnone. simpl decodeHtmlBody. rewrite Own.
      change (fun part0 => mime_is "text/html" part0 && truthy_opt (part_data part0))
        with (directMatch "text/html").
      rewrite (find_absent _ _ Hnone). split.
      * intros before part after -> Hb Hp. now apply first_truthy_first.
      * apply first_truthy_none.
Qed.

Lemma body_extraction_order_witness :
  truthy_opt (part_data Sample.htmlOnly) = false
  /\ forallb (fun q => negb (directMatch "text/plain" q))
       (part_parts Sample.htmlOnly) = true
  /\ truthy (decodeMessageBody Sample.host
               (Sample.leaf "text/html" "PGI-aGk8L2I-")) = true
  /\ decodeMessageBody Sample.host Sample.htmlOnly
     = decodeMessageBody Sample.host (Sample.leaf "text/html" "PGI-aGk8L2I-").
Proof.
  split; [reflexivity |]. split; [reflexivity |]. split; [reflexivity |].
  destruct (body_extraction_order Sample.host Sample.htmlOnly)
    as (_ & Hlevel & _).
  destruct (Hlevel eq_refl) as (_ & Hdeep).
  destruct (Hdeep eq_refl) as (Hfirst & _).
  exact (Hfirst [] (Sample.leaf "text/html" "PGI-aGk8L2I-") [] eq_refl
           eq_refl eq_refl).
Defined.

End ResolverProps.

(** ** The MIME composer *)

Module ComposerProps.
Import JS ReplyUtils Gmail Spec StringFacts ReplyUtilsProps ResolverProps.

Ltac string_assoc := repeat rewrite append_assoc; simpl; try reflexivity.

Lemma join_snoc (sep : string) (front : list string) (x : string) :
  front <> [] ->
  join sep (front ++ [x]) = join sep front ++ sep ++ x.
Proof.
  induction front as [| y front IH]; [congruence |]. intros _.
  destruct front as [| z front].
  - reflexivity.
  - change (join sep ((y :: z :: front) ++ [x]))
      with (y ++ sep ++ join sep ((z :: front) ++ [x])).
    rewrite IH by discriminate.
    change (join sep (y :: z :: front)) with (y ++ sep ++ join sep (z :: front)).
    now rewrite !append_assoc.
Qed.

(** *** Rendering of the expected parts against the strings the code builds *)

Lemma render_textLeaf (boundary text : string) :
  "--" ++ boundary ++ CRLF ++ render (textLeaf text) = textPart boundary text.
Proof. reflexivity. Qed.

Lemma render_htmlLeaf (boundary html : string) :
  "--" ++ boundary ++ CRLF ++ render (htmlLeaf html) = htmlPart boundary html.
Proof. reflexivity. Qed.

Lemma render_alternative (boundary alt text html : string) :
  "--" ++ boundary ++ CRLF
  ++ render (Multipart "alternative" alt [textLeaf text; htmlLeaf html])
  = alternativeInMixed boundary alt text html.
Proof.
  unfold alternativeInMixed. simpl render. unfold join. simpl String.concat.
  do 3 f_equal. string_assoc.
  do 2 f_equal. string_assoc.
Qed.

Lemma render_attachmentLeaf (host : Host) (boundary filePath : string) :
  "--" ++ boundary ++ CRLF ++ render (attachmentLeaf host filePath)
  = attachmentPartOf host boundary filePath.
Proof.
  unfold attachmentPartOf, attachmentPart, attachmentLeaf.
  simpl render. unfold join. simpl String.concat.
  do 3 f_equal. string_assoc.
Qed.

Lemma attachmentParts_run (host : Host) (boundary : string)
    (files : list string) (st : Store) :
  readable host files = true ->
  attachmentParts host boundary files st
  = (Returned (map (attachmentPartOf host boundary) files), st).
Proof.
  induction files as [| f files IH]; simpl; [reflexivity |].
  intros H. apply andb_true_iff in H as [Hf Hfiles].
  unfold bind. destruct (readFileSync host f) as [content |] eqn:R;
    [| discriminate].
  simpl. rewrite (IH Hfiles). unfold attachmentPartOf. now rewrite R.
Qed.

Lemma attachmentParts_fail (host : Host) (boundary : string)
    (files : list string) (st : Store) :
  readable host files = false ->
  attachmentParts host boundary files st = (Thrown, st).
Proof.
  induction files as [| f files IH]; simpl; [discriminate |].
  intros H. unfold bind.
  destruct (readFileSync host f) as [content |] eqn:R; [| reflexivity].
  simpl in *. now rewrite (IH H).
Qed.

Lemma headerBlock_last (email : string) (recipients : list string)
    (o : Options.t) (l : Locals) (ct : string) :
  exists front,
    front <> []
    /\ headerBlock email recipients o l ct
       = (front ++ [("Content-Type: " ++ ct)%string])%list.
Proof.
  unfold headerBlock.
  match goal with
  | |- context [filter truthy (?a :: ?b :: ?c :: ?d :: ?e :: ?f :: ?g :: ?h :: [?i])] =>
      exists (filter truthy [a; b; c; d; e; f; g; h]);
      change (a :: b :: c :: d :: e :: f :: g :: h :: [i])
        with ([a; b; c; d; e; f; g; h] ++ [i])%list
  end.
  split; [simpl; discriminate |].
  rewrite filter_app. reflexivity.
Qed.

(** *** The auto-fill block *)

Lemma autoFill_noreply (host : Host) (tid0 : option string)
    (email : string) (to : option (list string)) (subject body : string)
    (st : Store) :
  truthy_opt (Options.replyToMessageId (options st)) = false ->
  autoFill host tid0 email to subject body st
  = (Returned {| recipientList := to;
                 subjectLine := subject;
                 bodyText := body;
                 v_inReplyTo := None;
                 v_references := None;
                 v_threadId := tid0;
                 replyData := None |}, st).
Proof.
  intros H. unfold autoFill, bind, readOptions. simpl. now rewrite H.
Qed.

Lemma autoFill_reply_thrown (host : Host) (tid0 : option string)
    (email : string) (to : option (list string)) (subject body : string)
    (st st1 : Store) :
  truthy_opt (Options.replyToMessageId (options st)) = true ->
  getMessageForReply host email
    (or_empty (Options.replyToMessageId (options st))) st = (Thrown, st1) ->
  autoFill host tid0 email to subject body st = (Thrown, st1).
Proof.
  intros H G. unfold autoFill, bind, readOptions. simpl. now rewrite H, G.
Qed.

Lemma autoFill_reply (host : Host) (tid0 : option string)
    (email : string) (to : option (list string)) (subject body : string)
    (st st1 : Store) (rd : ReplyData.t) :
  truthy_opt (Options.replyToMessageId (options st)) = true ->
  getMessageForReply host email
    (or_empty (Options.replyToMessageId (options st))) st = (Returned rd, st1) ->
  autoFill host tid0 email to subject body st
  = (Returned
       {| recipientList :=
            if noRecipients to
            then Some [ReplyUtils.email (parseEmailAddress (ReplyData.from rd))]
            else to;
          subjectLine :=
            if negb (truthy subject)
            then formatReplySubject (ReplyData.subject rd) else subject;
          bodyText :=
            if quoteWanted (options st)
            then body ++ formatGmailQuote host (ReplyData.date rd)
                           (ReplyData.from rd) (ReplyData.body rd)
            else body;
          v_inReplyTo := Some (ReplyData.inReplyTo rd);
          v_references := Some (ReplyData.references rd);
          v_threadId := Some (ReplyData.threadId rd);
          replyData := Some rd |},
     {| options :=
          if noRecipients to && is_set (Options.replyAll (options st))
          then with_cc (or_nil (Options.cc (options st))
                        ++ filterSelfFromRecipients
                             (ReplyData.to rd ++ ReplyData.cc rd) email)%list
                 (options st)
          else options st;
        calls := calls st1 |}).
Proof.
  intros H G.
  pose proof (getMessageForReply_options host email
                (or_empty (Options.replyToMessageId (options st))) st) as O.
  rewrite G in O. simpl in O.
  unfold autoFill, bind, readOptions. simpl. rewrite H, G.
  destruct st1 as [o1 c1]. simpl in O. subst o1.
  destruct (noRecipients to); simpl.
  - destruct (is_set (Options.replyAll (options st))); reflexivity.
  - reflexivity.
Qed.

(** An auto-fill that returns with a reply target has fetched a message. *)
Lemma autoFill_returned (host : Host) (tid0 : option string)
    (email : string) (to : option (list string)) (subject body : string)
    (st st2 : Store) (l : Locals) :
  truthy_opt (Options.replyToMessageId (options st)) = true ->
  autoFill host tid0 email to subject body st = (Returned l, st2) ->
  exists rd st1,
    getMessageForReply host email
      (or_empty (Options.replyToMessageId (options st))) st
    = (Returned rd, st1).
Proof.
  intros H A.
  destruct (getMessageForReply host email
              (or_empty (Options.replyToMessageId (options st))) st)
    as [[rd |] st1] eqn:G.
  - now exists rd, st1.
  - rewrite (autoFill_reply_thrown _ _ _ _ _ _ _ _ H G) in A. discriminate.
Qed.

(** *** The assembly block *)

Lemma render_Multipart (subtype boundary : string) (children : list Entity) :
  render (Multipart subtype boundary children)
  = "Content-Type: multipart/" ++ subtype ++ "; boundary=" ++ quoted boundary
    ++ CRLF ++ CRLF
    ++ join CRLF (map (fun c => "--" ++ boundary ++ CRLF ++ render c) children)
    ++ CRLF ++ "--" ++ boundary ++ "--".
Proof. reflexivity. Qed.


Lemma join_headers_render (front : list string) (ct rest : string) (e : Entity) :
  front <> [] ->
  render e = ("Content-Type: " ++ ct) ++ CRLF ++ CRLF ++ rest ->
  join CRLF (front ++ [("Content-Type: " ++ ct)%string]) ++ CRLF ++ CRLF ++ rest
  = join CRLF front ++ CRLF ++ render e.
Proof.
  intros Hne ->. rewrite join_snoc by assumption. now rewrite !append_assoc.
Qed.

Lemma render_flat (text : string) :
  render (textLeaf text)
  = ("Content-Type: " ++ "text/plain; charset=UTF-8") ++ CRLF ++ CRLF ++ text.
Proof. reflexivity. Qed.

Lemma render_top_alternative (alt text html : string) :
  render (Multipart "alternative" alt [textLeaf text; htmlLeaf html])
  = ("Content-Type: " ++ "multipart/alternative; boundary=" ++ quoted alt)
    ++ CRLF ++ CRLF
    ++ join CRLF [textPart alt text; htmlPart alt html]
    ++ CRLF ++ "--" ++ alt ++ "--".
Proof. reflexivity. Qed.

Lemma render_mixed (host : Host) (boundary : string) (first : Entity)
    (firstPart : string) (files : list string) :
  "--" ++ boundary ++ CRLF ++ render first = firstPart ->
  render (Multipart "mixed" boundary (first :: map (attachmentLeaf host) files))
  = ("Content-Type: " ++ "multipart/mixed; boundary=" ++ quoted boundary)
    ++ CRLF ++ CRLF
    ++ join CRLF (firstPart :: map (attachmentPartOf host boundary) files)
    ++ CRLF ++ "--" ++ boundary ++ "--".
Proof.
  intros H. rewrite render_Multipart, map_cons. cbv beta. rewrite H, map_map.
  rewrite (map_ext _ _ (render_attachmentLeaf host boundary)).
  reflexivity.
Qed.

Lemma assemble_run (host : Host) (email body : string) (l : Locals)
    (st : Store) (recipients : list string) :
  recipientList l = Some recipients ->
  readable host (or_nil (Options.attachments (options st))) = true ->
  exists a,
    assemble host email body l st = (Returned a, st)
    /\ contentType a = expectedContentType host (options st) l
    /\ headers a = headerBlock email recipients (options st) l (contentType a)
    /\ emailContent a
       = join CRLF (removelast (headers a)) ++ CRLF
         ++ render (expectedEntity host (options st) body l).
Proof.
  intros Hr Hfiles.
  unfold expectedContentType, expectedEntity, replyEntity, quoteIncluded,
    htmlReplyOf, assemble.
  rewrite Hr. revert Hfiles.
  destruct (Options.attachments (options st)) as [[| f files] |] eqn:A.
  all: destruct (replyData l) as [rd |] eqn:R.
  all: try destruct (quoteWanted (options st)) eqn:Q.
  all: intros Hfiles.
  all: cbv beta iota delta [bind readOptions orThrow ret htmlBodyFor nonEmpty
                            or_nil throw] in *.
  all: rewrite ?A, ?Q; cbv beta iota.
  all: try (rewrite (attachmentParts_run host _ _ _ Hfiles); cbv beta iota).
  all: eexists; split; [reflexivity |]; split; [reflexivity |];
    split; [reflexivity |].
  all: cbn [emailContent headers contentType].
  all: match goal with
       | |- context [headerBlock ?e ?r ?o ?l ?ct] =>
           destruct (headerBlock_last e r o l ct) as (front & Hne & ->)
       end.
  all: rewrite removelast_last.
  all: apply join_headers_render; [assumption |].
  all: first [ apply render_flat
             | apply render_top_alternative
             | apply render_mixed; first [ apply render_alternative
                                         | apply render_textLeaf ] ].
Qed.

Lemma assemble_store (host : Host) (email body : string) (l : Locals)
    (st : Store) :
  snd (assemble host email body l st) = st.
Proof.
  unfold assemble.
  cbv beta iota delta [bind readOptions orThrow ret htmlBodyFor throw].
  destruct (recipientList l) as [rs |]; [| reflexivity].
  destruct (nonEmpty (Options.attachments (options st))).
  - destruct (replyData l) as [rd |].
    + destruct (quoteWanted (options st)).
      * destruct (readable host (or_nil (Options.attachments (options st))))
          eqn:Rd.
        -- now rewrite (attachmentParts_run _ _ _ _ Rd).
        -- now rewrite (attachmentParts_fail _ _ _ _ Rd).
      * destruct (readable host (or_nil (Options.attachments (options st))))
          eqn:Rd.
        -- now rewrite (attachmentParts_run _ _ _ _ Rd).
        -- now rewrite (attachmentParts_fail _ _ _ _ Rd).
    + destruct (readable host (or_nil (Options.attachments (options st))))
        eqn:Rd.
      * now rewrite (attachmentParts_run _ _ _ _ Rd).
      * now rewrite (attachmentParts_fail _ _ _ _ Rd).
  - destruct (replyData l) as [rd |]; [| reflexivity].
    now destruct (quoteWanted (options st)).
Qed.

(** An assembly that returns had a recipient list and could read every
    attachment. *)
Lemma assemble_returned (host : Host) (email body : string) (l : Locals)
    (st st' : Store) (a : Assembled) :
  assemble host email body l st = (Returned a, st') ->
  st' = st
  /\ exists recipients,
       recipientList l = Some recipients
       /\ readable host (or_nil (Options.attachments (options st))) = true.
Proof.
  intros H.
  pose proof (assemble_store host email body l st) as S.
  rewrite H in S. simpl in S. split; [exact S |].
  destruct (recipientList l) as [rs |] eqn:Hr.
  - exists rs. split; [reflexivity |].
    destruct (readable host (or_nil (Options.attachments (options st))))
      eqn:Rd; [reflexivity |].
    exfalso. revert H. unfold assemble. rewrite Hr.
    cbv beta iota delta [bind readOptions orThrow ret htmlBodyFor throw].
    destruct (Options.attachments (options st)) as [[| f files] |];
      try discriminate Rd.
    cbv beta iota delta [nonEmpty or_nil] in *.
    destruct (replyData l) as [rd |].
    + destruct (quoteWanted (options st));
        now rewrite (attachmentParts_fail _ _ _ _ Rd).
    + now rewrite (attachmentParts_fail _ _ _ _ Rd).
  - exfalso. revert H. unfold assemble. rewrite Hr.
    cbv beta iota delta [bind readOptions orThrow ret throw]. discriminate.
Qed.

(** *** The two entry points *)

Lemma createDraft_message_unfold (host : Host) (email : string)
    (to : option (list string)) (subject body : string) (st : Store) :
  createDraft_message host email to subject body st
  = if accountKnown host email
    then composeWith host (Options.threadId (options st))
           email to subject body st
    else (Thrown, st).
Proof.
  unfold createDraft_message, composeWith, getGmailClient.
  destruct (accountKnown host email); reflexivity.
Qed.

Lemma sendMessage_message_unfold (host : Host) (email : string)
    (to : option (list string)) (subject body : string) (st : Store) :
  sendMessage_message host email to subject body st
  = if accountKnown host email
    then composeWith host None email to subject body st
    else (Thrown, st).
Proof.
  unfold sendMessage_message, composeWith, getGmailClient.
  destruct (accountKnown host email); reflexivity.
Qed.

Lemma composeWith_returned (host : Host) (tid0 : option string)
    (email : string) (to : option (list string)) (subject body : string)
    (st st' : Store) (l : Locals) (a : Assembled) :
  composeWith host tid0 email to subject body st = (Returned (l, a), st') ->
  autoFill host tid0 email to subject body st = (Returned l, st')
  /\ assemble host email body l st' = (Returned a, st').
Proof.
  unfold composeWith, bind, ret. intros H.
  destruct (autoFill host tid0 email to subject body st) as [[l1 |] st1] eqn:A;
    [| discriminate].
  pose proof (assemble_store host email body l1 st1) as S.
  destruct (assemble host email body l1 st1) as [[a1 |] st2] eqn:B;
    [| discriminate].
  simpl in S. subst st2. inversion H; subst. now split.
Qed.

Lemma composeWith_run (host : Host) (tid0 : option string)
    (email : string) (to : option (list string)) (subject body : string)
    (st st1 : Store) (l : Locals) (a : Assembled) :
  autoFill host tid0 email to subject body st = (Returned l, st1) ->
  assemble host email body l st1 = (Returned a, st1) ->
  composeWith host tid0 email to subject body st = (Returned (l, a), st1).
Proof. intros A B. unfold composeWith, bind, ret. now rewrite A, B. Qed.

(** Either entry point, when it returns, went through the shared text. *)
Lemma message_returned (host : Host) (email : string)
    (to : option (list string)) (subject body : string)
    (st st' : Store) (l : Locals) (a : Assembled) :
  createDraft_message host email to subject body st = (Returned (l, a), st')
  \/ sendMessage_message host email to subject body st = (Returned (l, a), st') ->
  exists tid0,
    autoFill host tid0 email to subject body st = (Returned l, st')
    /\ assemble host email body l st' = (Returned a, st').
Proof.
  intros [H | H].
  - rewrite createDraft_message_unfold in H.
    destruct (accountKnown host email); [| discriminate].
    eexists. now apply composeWith_returned in H.
  - rewrite sendMessage_message_unfold in H.
    destruct (accountKnown host email); [| discriminate].
    eexists. now apply composeWith_returned in H.
Qed.

(** The auto-fill writes no field of [options] other than [cc]. *)
Lemma autoFill_options (host : Host) (tid0 : option string)
    (email : string) (to : option (list string)) (subject body : string)
    (st st' : Store) (l : Locals) :
  autoFill host tid0 email to subject body st = (Returned l, st') ->
  Options.attachments (options st') = Options.attachments (options st)
  /\ Options.includeQuote (options st') = Options.includeQuote (options st)
  /\ Options.bcc (options st') = Options.bcc (options st)
  /\ Options.replyToMessageId (options st')
     = Options.replyToMessageId (options st).
Proof.
  intros A.
  destruct (truthy_opt (Options.replyToMessageId (options st))) eqn:T.
  - destruct (autoFill_returned _ _ _ _ _ _ _ _ _ T A) as (rd & st1 & G).
    rewrite (autoFill_reply _ _ _ _ _ _ _ _ _ T G) in A.
    inversion A; subst; clear A. simpl.
    destruct (noRecipients to && is_set (Options.replyAll (options st)));
      repeat split; reflexivity.
  - rewrite (autoFill_noreply _ _ _ _ _ _ _ T) in A.
    inversion A; subst. repeat split; reflexivity.
Qed.

Lemma expected_same_options (host : Host) (o o' : Options.t)
    (body : string) (l : Locals) :
  Options.attachments o' = Options.attachments o ->
  Options.includeQuote o' = Options.includeQuote o ->
  expectedEntity host o' body l = expectedEntity host o body l
  /\ expectedContentType host o' l = expectedContentType host o l.
Proof.
  intros A Q.
  unfold expectedEntity, expectedContentType, replyEntity, quoteIncluded,
    quoteWanted.
  now rewrite A, Q.
Qed.

(** C2.  Whenever [createDraft] or [sendMessage] completes a message, its
    content is the envelope header lines followed by the rendering of the
    expected entity, and its last header line is the matching
    [Content-Type]: with attachments a [multipart/mixed] whose first part is
    the reply (a [multipart/alternative] of exactly one [text/plain] and one
    [text/html] part when a quote is included, else one [text/plain] part)
    followed by one base64 attachment part per file, with its disposition
    and file name; without attachments but with a quote a top-level
    [multipart/alternative] of a [text/plain] and a [text/html] part; with
    neither a flat [text/plain] body. *)
Theorem compose_structure (host : Host) (email : string)
    (to : option (list string)) (subject body : string)
    (st st' : Store) (l : Locals) (a : Assembled) :
  createDraft_message host email to subject body st = (Returned (l, a), st')
  \/ sendMessage_message host email to subject body st = (Returned (l, a), st') ->
  contentType a = expectedContentType host (options st) l
  /\ List.last (headers a) EmptyString = "Content-Type: " ++ contentType a
  /\ emailContent a
     = join CRLF (removelast (headers a)) ++ CRLF
       ++ render (expectedEntity host (options st) body l).
Proof.
  intros H. destruct (message_returned _ _ _ _ _ _ _ _ _ H) as (tid0 & A & B).
  destruct (autoFill_options _ _ _ _ _ _ _ _ _ A) as (Hatt & Hq & _).
  destruct (expected_same_options host (options st) (options st') body l
              Hatt Hq) as (He & Hc).
  destruct (assemble_returned _ _ _ _ _ _ _ B) as (_ & rs & Hrs & Hread).
  destruct (assemble_run host email body l st' rs Hrs Hread)
    as (a' & B' & Hct & Hh & Hcontent).
  rewrite B in B'. inversion B'; subst a'.
  rewrite <- He, <- Hc. split; [exact Hct |]. split; [| exact Hcontent].
  rewrite Hh.
  destruct (headerBlock_last email rs (options st') l (contentType a))
    as (front & _ & ->).
  apply last_last.
Qed.

Lemma compose_structure_witness :
  exists l a st',
    createDraft_message Sample.host "me@x.com" (Some []) "" "Sure."
      (Sample.fresh (Sample.replyWithReport "t1")) = (Returned (l, a), st')
    /\ contentType a
       = expectedContentType Sample.host (Sample.replyWithReport "t1") l.
Proof.
  eexists. eexists. eexists. split.
  - lazy. reflexivity.
  - refine (proj1 (compose_structure Sample.host "me@x.com" (Some []) "" "Sure."
                     (Sample.fresh (Sample.replyWithReport "t1")) _ _ _
                     (or_introl _))).
    lazy. reflexivity.
Defined.

(** *** Threading headers *)

Lemma getHeader_lacks (msg : Message) (name : string) :
  lacksHeader msg name = true -> getHeader (headersOfMessage msg) name = EmptyString.
Proof.
  unfold lacksHeader, getHeader.
  induction (headersOfMessage msg) as [| h hs IH]; simpl; [reflexivity |].
  intros H. apply andb_true_iff in H as [Hh Hhs].
  destruct (h_name h) as [n |].
  - apply negb_true_iff in Hh. rewrite Hh. now apply IH.
  - now apply IH.
Qed.

Lemma replyDataOf_lacks (host : Host) (msg : Message) :
  lacksHeader msg "Message-ID" = true ->
  ReplyData.inReplyTo (replyDataOf host msg) = EmptyString
  /\ (lacksHeader msg "References" = true ->
      ReplyData.references (replyDataOf host msg) = EmptyString).
Proof.
  intros Hm. unfold replyDataOf. simpl.
  fold (headersOfMessage msg). rewrite (getHeader_lacks _ _ Hm).
  split; [reflexivity |]. intros Hr. now rewrite (getHeader_lacks _ _ Hr).
Qed.

Lemma headerBlock_no_inReplyTo (email : string) (recipients : list string)
    (o : Options.t) (l : Locals) (ct : string) :
  truthy_opt (v_inReplyTo l) = false ->
  noField "In-Reply-To" (headerBlock email recipients o l ct) = true.
Proof.
  intros Hi. unfold headerBlock. rewrite Hi.
  destruct (nonEmpty (Options.cc o)); destruct (nonEmpty (Options.bcc o));
    destruct (truthy_opt (v_references l)); reflexivity.
Qed.

Lemma headerBlock_no_references (email : string) (recipients : list string)
    (o : Options.t) (l : Locals) (ct : string) :
  truthy_opt (v_references l) = false ->
  noField "References" (headerBlock email recipients o l ct) = true.
Proof.
  intros Hr. unfold headerBlock. rewrite Hr.
  destruct (nonEmpty (Options.cc o)); destruct (nonEmpty (Options.bcc o));
    destruct (truthy_opt (v_inReplyTo l)); reflexivity.
Qed.

Lemma headerBlock_to (email : string) (recipients : list string)
    (o : Options.t) (l : Locals) (ct : string) :
  nth_error (headerBlock email recipients o l ct) 1
  = Some ("To: " ++ join ", " recipients).
Proof. reflexivity. Qed.

Lemma headerBlock_cc (email : string) (recipients : list string)
    (o : Options.t) (l : Locals) (ct : string) :
  nonEmpty (Options.cc o) = true ->
  In ("Cc: " ++ join ", " (or_nil (Options.cc o)))
     (headerBlock email recipients o l ct).
Proof.
  intros H. unfold headerBlock. rewrite H. apply filter_In.
  split; [right; right; left; reflexivity | reflexivity].
Qed.

Lemma noRecipients_cases (to : option (list string)) :
  noRecipients to = true
  <-> to = None \/ to = Some [] \/ to = Some [EmptyString].
Proof.
  split.
  - destruct to as [[| r [| r' rs]] |]; simpl; intros H; try discriminate;
      auto.
    apply negb_true_iff, truthy_false in H. subst. auto.
  - intros [-> | [-> | ->]]; reflexivity.
Qed.

Lemma explicit_recipients (to : option (list string)) :
  noRecipients to = false -> exists rs, to = Some rs.
Proof. destruct to as [rs |]; [now exists rs | discriminate]. Qed.

(** With a reply target that is fetched, and readable attachments, the
    shared text completes. *)
Lemma composeWith_reply_run (host : Host) (tid0 : option string)
    (email : string) (to : option (list string)) (subject body : string)
    (st st1 : Store) (rd : ReplyData.t) :
  truthy_opt (Options.replyToMessageId (options st)) = true ->
  getMessageForReply host email
    (or_empty (Options.replyToMessageId (options st))) st = (Returned rd, st1) ->
  readable host (or_nil (Options.attachments (options st))) = true ->
  exists l a st' rs,
    composeWith host tid0 email to subject body st = (Returned (l, a), st')
    /\ replyData l = Some rd
    /\ v_inReplyTo l = Some (ReplyData.inReplyTo rd)
    /\ v_references l = Some (ReplyData.references rd)
    /\ headers a = headerBlock email rs (options st') l (contentType a).
Proof.
  intros T G Hread.
  pose proof (autoFill_reply host tid0 email to subject body st st1 rd T G) as A.
  destruct (autoFill_options _ _ _ _ _ _ _ _ _ A) as (Hatt & _).
  match type of A with _ = (Returned ?l0, ?s0) => set (l := l0) in *; set (st2 := s0) in * end.
  assert (Hrs : exists rs, recipientList l = Some rs).
  { subst l. simpl. destruct (noRecipients to) eqn:N.
    - eexists. reflexivity.
    - now apply explicit_recipients. }
  destruct Hrs as (rs & Hrs).
  rewrite <- Hatt in Hread.
  destruct (assemble_run host email body l st2 rs Hrs Hread)
    as (a & B & _ & Hh & _).
  exists l, a, st2, rs. split; [now apply composeWith_run |].
  repeat split; try reflexivity. exact Hh.
Qed.

(** C3, the claim as stated, fails when the fetched message has no
    [Message-ID] but does carry [References]: the composed block then has a
    [References] line, the old chain followed by a space. *)
Lemma references_kept_without_message_id :
  lacksHeader Sample.notes "Message-ID" = true
  /\ headersOfRun
       (createDraft_message Sample.host "me@x.com" (Some ["dave@w.org"])
          "Re: Notes" "Thanks."
          (Sample.fresh (Sample.plainReplyTo "n1")))
     = [ "From: me@x.com"; "To: dave@w.org"; "Subject: Re: Notes";
         "References: <r1@x.com> "; "MIME-Version: 1.0";
         "Content-Type: text/plain; charset=UTF-8" ].
Proof. vm_compute. split; reflexivity. Qed.

(** C3, amended.  When the fetched reply target has no [Message-ID]
    header, [createDraft] and [sendMessage] both complete the message (given
    readable attachments) and no line of the composed header block is an
    [In-Reply-To] field; when the target has no [References] header of its
    own either, no line is a [References] field. *)
Theorem reply_without_message_id (host : Host) (email : string)
    (to : option (list string)) (subject body : string)
    (st st1 : Store) (id : string) (msg : Message) :
  Options.replyToMessageId (options st) = Some id ->
  truthy id = true ->
  getMessageForReply host email id st = (Returned (replyDataOf host msg), st1) ->
  lacksHeader msg "Message-ID" = true ->
  readable host (or_nil (Options.attachments (options st))) = true ->
  (exists l a st',
      createDraft_message host email to subject body st = (Returned (l, a), st')
      /\ noField "In-Reply-To" (headers a) = true
      /\ (lacksHeader msg "References" = true ->
          noField "References" (headers a) = true))
  /\ (exists l a st',
         sendMessage_message host email to subject body st = (Returned (l, a), st')
         /\ noField "In-Reply-To" (headers a) = true
         /\ (lacksHeader msg "References" = true ->
             noField "References" (headers a) = true)).
Proof.
  intros Hid Ht G Hm Hread.
  assert (T : truthy_opt (Options.replyToMessageId (options st)) = true)
    by now rewrite Hid.
  assert (G' : getMessageForReply host email
                 (or_empty (Options.replyToMessageId (options st))) st
               = (Returned (replyDataOf host msg), st1)) by now rewrite Hid.
  destruct (getMessageForReply_returned _ _ _ _ _ _ G) as (Hacc & _).
  destruct (replyDataOf_lacks host msg Hm) as (Hi & Hrefs).
  assert (Both : forall tid0, exists l a st',
             composeWith host tid0 email to subject body st = (Returned (l, a), st')
             /\ noField "In-Reply-To" (headers a) = true
             /\ (lacksHeader msg "References" = true ->
                 noField "References" (headers a) = true)).
  { intros tid0.
    destruct (composeWith_reply_run host tid0 email to subject body st st1 _
                T G' Hread) as (l & a & st' & rs & C & _ & Li & Lr & Hh).
    exists l, a, st'. split; [exact C |].
    rewrite Hh. split.
    - apply headerBlock_no_inReplyTo. now rewrite Li, Hi.
    - intros Hr. apply headerBlock_no_references. now rewrite Lr, (Hrefs Hr). }
  split.
  - destruct (Both (Options.threadId (options st))) as (l & a & st' & C & N).
    exists l, a, st'. rewrite createDraft_message_unfold, Hacc. now split.
  - destruct (Both None) as (l & a & st' & C & N).
    exists l, a, st'. rewrite sendMessage_message_unfold, Hacc. now split.
Qed.

Lemma reply_without_message_id_witness :
  lacksHeader Sample.memo "Message-ID" = true
  /\ exists l a st',
       createDraft_message Sample.host "me@x.com" None "" "Got it."
         (Sample.fresh (Sample.replyTo "n2")) = (Returned (l, a), st')
       /\ noField "In-Reply-To" (headers a) = true
       /\ (lacksHeader Sample.memo "References" = true ->
           noField "References" (headers a) = true).
Proof.
  split; [reflexivity |].
  refine (proj1 (reply_without_message_id Sample.host "me@x.com" None ""
                   "Got it." (Sample.fresh (Sample.replyTo "n2")) _ "n2"
                   Sample.memo eq_refl eq_refl _ eq_refl eq_refl)).
  lazy. reflexivity.
Defined.

(** *** Recipient auto-fill *)

(** A run with a reply target that returned: its locals and final options,
    spelled out. *)
Lemma reply_run_returned (host : Host) (email : string)
    (to : option (list string)) (subject body : string)
    (st st' : Store) (l : Locals) (a : Assembled) :
  createDraft_message host email to subject body st = (Returned (l, a), st')
  \/ sendMessage_message host email to subject body st = (Returned (l, a), st') ->
  truthy_opt (Options.replyToMessageId (options st)) = true ->
  exists rd rs,
    replyData l = Some rd
    /\ recipientList l
       = (if noRecipients to
          then Some [ReplyUtils.email (parseEmailAddress (ReplyData.from rd))]
          else to)
    /\ options st'
       = (if noRecipients to && is_set (Options.replyAll (options st))
          then with_cc (or_nil (Options.cc (options st))
                        ++ filterSelfFromRecipients
                             (ReplyData.to rd ++ ReplyData.cc rd) email)%list
                 (options st)
          else options st)
    /\ recipientList l = Some rs
    /\ headers a = headerBlock email rs (options st') l (contentType a).
Proof.
  intros H T.
  destruct (message_returned _ _ _ _ _ _ _ _ _ H) as (tid0 & A & B).
  destruct (autoFill_returned _ _ _ _ _ _ _ _ _ T A) as (rd & st1 & G).
  rewrite (autoFill_reply _ _ _ _ _ _ _ _ _ T G) in A.
  destruct (assemble_returned _ _ _ _ _ _ _ B) as (_ & rs & Hrs & Hread).
  destruct (assemble_run host email body l st' rs Hrs Hread)
    as (a' & B' & _ & Hh & _).
  rewrite B in B'. inversion B'; subst a'.
  exists rd, rs. inversion A; subst; clear A. simpl in *.
  repeat split; assumption || reflexivity.
Qed.

(** C10.  In a compose call with a reply target, a [to] argument that is
    absent, empty, or one empty string is replaced by the single address
    parsed from the original message's [From] header, which then makes up
    the [To] line; [createDraft] and [sendMessage] do so alike. *)
Theorem autofill_recipient (host : Host) (email : string)
    (to : option (list string)) (subject body : string)
    (st st' : Store) (l : Locals) (a : Assembled) :
  createDraft_message host email to subject body st = (Returned (l, a), st')
  \/ sendMessage_message host email to subject body st = (Returned (l, a), st') ->
  truthy_opt (Options.replyToMessageId (options st)) = true ->
  to = None \/ to = Some [] \/ to = Some [EmptyString] ->
  exists rd,
    replyData l = Some rd
    /\ recipientList l
       = Some [ReplyUtils.email (parseEmailAddress (ReplyData.from rd))]
    /\ nth_error (headers a) 1
       = Some ("To: "
               ++ ReplyUtils.email (parseEmailAddress (ReplyData.from rd))).
Proof.
  intros H T Hto. apply noRecipients_cases in Hto.
  destruct (reply_run_returned _ _ _ _ _ _ _ _ _ H T)
    as (rd & rs & Hrd & Hl & _ & Hrs & Hh).
  rewrite Hto in Hl. exists rd. split; [exact Hrd |]. split; [exact Hl |].
  rewrite Hh, headerBlock_to. rewrite Hl in Hrs. inversion Hrs; subst rs.
  reflexivity.
Qed.

Lemma autofill_recipient_witness :
  exists l a st',
    sendMessage_message Sample.host "me@x.com" (Some [EmptyString]) "" "Sure."
      (Sample.fresh (Sample.replyTo "t1")) = (Returned (l, a), st')
    /\ nth_error (headers a) 1 = Some "To: alice@example.com".
Proof.
  eexists. eexists. eexists. split.
  - lazy. reflexivity.
  - destruct (autofill_recipient Sample.host "me@x.com" (Some [EmptyString])
                "" "Sure." (Sample.fresh (Sample.replyTo "t1")) _ _ _
                (or_intror eq_refl) eq_refl (or_intror (or_intror eq_refl)))
      as (rd & Hrd & _ & Hto).
    refine (eq_trans Hto _).
    lazy in Hrd. injection Hrd as <-. lazy. reflexivity.
Defined.

(** *** Reply to all *)

(** C6, the claim as stated, fails when the caller passes a [cc] list of
    their own: the composed list starts with the caller's entries, and the
    original recipients other than the account come after them. *)
Lemma replyAll_cc_keeps_caller_cc :
  Options.cc
    (optionsAfter
       (createDraft_message Sample.host "me@x.com" (Some []) "" "Sure."
          (Sample.fresh (Sample.replyAllTo "t1" (Some ["zed@q.io"])))))
  = Some ["zed@q.io"; "bob@y.com"; "carol@z.com"]
  /\ filterSelfFromRecipients
       (ReplyData.to (replyDataOf Sample.host Sample.lunch)
        ++ ReplyData.cc (replyDataOf Sample.host Sample.lunch))%list
       "me@x.com"
     = ["bob@y.com"; "carol@z.com"]
  /\ headersOfRun
       (createDraft_message Sample.host "me@x.com" (Some []) "" "Sure."
          (Sample.fresh (Sample.replyAllTo "t1" (Some ["zed@q.io"]))))
     = [ "From: me@x.com"; "To: alice@example.com";
         "Cc: zed@q.io, bob@y.com, carol@z.com"; "Subject: Re: Lunch";
         "In-Reply-To: <m3@mail.example.com>";
         "References: <m1@mail.example.com> <m2@mail.example.com> <m3@mail.example.com>";
         "MIME-Version: 1.0"; "Content-Type: text/plain; charset=UTF-8" ].
Proof. vm_compute. repeat split; reflexivity. Qed.

(** C6, amended.  In a compose call with a reply target, no explicit
    recipients and the reply-all flag set, the composed [cc] list is the
    caller's own [cc] entries, if any, followed by the original message's
    [to] and [cc] recipients without the entries equal to the sending
    account's address up to letter case; the other entries keep their order
    and their duplicates.  A non-empty list makes up the [Cc] line.
    [filterSelfFromRecipients(["a@x.com","A@X.COM"], "a@x.com")] is empty. *)
Theorem replyAll_cc (host : Host) (email : string)
    (to : option (list string)) (subject body : string)
    (st st' : Store) (l : Locals) (a : Assembled) :
  createDraft_message host email to subject body st = (Returned (l, a), st')
  \/ sendMessage_message host email to subject body st = (Returned (l, a), st') ->
  truthy_opt (Options.replyToMessageId (options st)) = true ->
  noRecipients to = true ->
  is_set (Options.replyAll (options st)) = true ->
  exists rd,
    replyData l = Some rd
    /\ Options.cc (options st')
       = Some (or_nil (Options.cc (options st))
               ++ filterSelfFromRecipients
                    (ReplyData.to rd ++ ReplyData.cc rd) email)%list
    /\ (nonEmpty (Options.cc (options st')) = true ->
        In ("Cc: " ++ join ", " (or_nil (Options.cc (options st'))))
           (headers a))
    /\ filterSelfFromRecipients [] email = []
    /\ (forall x xs,
          filterSelfFromRecipients (x :: xs) email
          = if String.eqb (toLowerCase x) (toLowerCase email)
            then filterSelfFromRecipients xs email
            else x :: filterSelfFromRecipients xs email)
    /\ filterSelfFromRecipients ["a@x.com"; "A@X.COM"] "a@x.com" = [].
Proof.
  intros H T N R.
  destruct (reply_run_returned _ _ _ _ _ _ _ _ _ H T)
    as (rd & rs & Hrd & _ & Ho & _ & Hh).
  rewrite N, R in Ho. simpl in Ho.
  exists rd. split; [exact Hrd |]. split; [now rewrite Ho |].
  split; [intros Hcc; rewrite Hh; now apply headerBlock_cc |].
  split; [reflexivity |]. split; [| reflexivity].
  intros x xs. apply filterSelf_cons.
Qed.

Lemma replyAll_cc_witness :
  exists l a st',
    createDraft_message Sample.host "me@x.com" None "" "Sure."
      (Sample.fresh (Sample.replyAllTo "t1" None)) = (Returned (l, a), st')
    /\ Options.cc (options st') = Some ["bob@y.com"; "carol@z.com"].
Proof.
  eexists. eexists. eexists. split.
  - lazy. reflexivity.
  - destruct (replyAll_cc Sample.host "me@x.com" None "" "Sure."
                (Sample.fresh (Sample.replyAllTo "t1" None)) _ _ _
                (or_introl eq_refl) eq_refl eq_refl eq_refl)
      as (rd & Hrd & Hcc & _).
    refine (eq_trans Hcc _).
    lazy in Hrd. injection Hrd as <-. lazy. reflexivity.
Defined.

(** *** The caller's options object *)

(** C4.  The code does write the caller's [options] object: on a reply to
    all without explicit recipients, [createDraft] and [sendMessage] leave
    the object, which had no [cc], with a [cc] list of the original
    recipients. *)
Theorem compose_writes_options_cc :
  Options.cc (Sample.replyAllTo "t1" None) = None
  /\ Options.cc
       (optionsAfter
          (createDraft Sample.host "me@x.com" (Some []) "" "Sure."
             (Sample.fresh (Sample.replyAllTo "t1" None))))
     = Some ["bob@y.com"; "carol@z.com"]
  /\ Options.cc
       (optionsAfter
          (sendMessage Sample.host "me@x.com" (Some []) "" "Sure."
             (Sample.fresh (Sample.replyAllTo "t1" None))))
     = Some ["bob@y.com"; "carol@z.com"].
Proof. vm_compute. repeat split; reflexivity. Qed.

End ComposerProps.

(** * Further properties *)

(** ** HTML escaping *)

Module EscapeProps.
Import JS ReplyUtils Spec SpecMore StringFacts.

Lemma replaceAll_app (c : ascii) (rep a b : string) :
  replaceAll c rep (a ++ b) = replaceAll c rep a ++ replaceAll c rep b.
Proof.
  induction a as [| d a IH]; simpl; [reflexivity |].
  rewrite IH. destruct (Ascii.eqb d c); [now rewrite append_assoc | reflexivity].
Qed.

Lemma escapeHtml_app (a b : string) :
  escapeHtml (a ++ b) = escapeHtml a ++ escapeHtml b.
Proof. unfold escapeHtml. now rewrite !replaceAll_app. Qed.

Lemma escapeHtml_char (c : ascii) :
  escapeHtml (String c EmptyString) = escapeChar c.
Proof.
  unfold escapeHtml, escapeChar. simpl.
  destruct (Ascii.eqb c "&"); [reflexivity |]. simpl.
  destruct (Ascii.eqb c "<"); [reflexivity |]. simpl.
  destruct (Ascii.eqb c ">"); [reflexivity |]. simpl.
  destruct (Ascii.eqb c DQUOTE); reflexivity.
Qed.

(** The four passes of [escapeHtml] act as one pass over the code units:
    the text of an entity is never escaped again. *)
Lemma escapeHtml_cons (c : ascii) (r : string) :
  escapeHtml (String c r) = escapeChar c ++ escapeHtml r.
Proof.
  change (String c r) with (String c EmptyString ++ r).
  now rewrite escapeHtml_app, escapeHtml_char.
Qed.

Lemma escapeChar_free (c x : ascii) :
  x = "<"%char \/ x = ">"%char \/ x = DQUOTE \/ x = LF ->
  mem_char x (escapeChar c) = Ascii.eqb c x && Ascii.eqb x LF.
Proof.
  intros Hx. unfold escapeChar.
  destruct (Ascii.eqb c "&") eqn:E1.
  { apply Ascii.eqb_eq in E1. subst c.
    destruct Hx as [-> | [-> | [-> | ->]]]; reflexivity. }
  destruct (Ascii.eqb c "<") eqn:E2.
  { apply Ascii.eqb_eq in E2. subst c.
    destruct Hx as [-> | [-> | [-> | ->]]]; reflexivity. }
  destruct (Ascii.eqb c ">") eqn:E3.
  { apply Ascii.eqb_eq in E3. subst c.
    destruct Hx as [-> | [-> | [-> | ->]]]; reflexivity. }
  destruct (Ascii.eqb c DQUOTE) eqn:E4.
  { apply Ascii.eqb_eq in E4. subst c.
    destruct Hx as [-> | [-> | [-> | ->]]]; reflexivity. }
  simpl. rewrite orb_false_r.
  destruct Hx as [-> | [-> | [-> | ->]]];
    rewrite ?E2, ?E3, ?E4; try reflexivity.
  now rewrite andb_true_r.
Qed.

(** X1.  The escaped text contains no [<], no [>] and no double quote,
    whatever the input. *)
Theorem escapeHtml_no_markup (text : string) :
  mem_char "<" (escapeHtml text) = false
  /\ mem_char ">" (escapeHtml text) = false
  /\ mem_char DQUOTE (escapeHtml text) = false.
Proof.
  induction text as [| c r (IH1 & IH2 & IH3)]; [now repeat split |].
  rewrite escapeHtml_cons, !mem_char_app, IH1, IH2, IH3, !orb_false_r.
  rewrite !escapeChar_free by tauto.
  now rewrite !andb_false_r.
Qed.

Lemma escapeChar_cancel (c d : ascii) (x y : string) :
  escapeChar c ++ x = escapeChar d ++ y -> c = d /\ x = y.
Proof.
  unfold escapeChar.
  destruct (Ascii.eqb c "&") eqn:C1; [apply Ascii.eqb_eq in C1; subst c |];
  [| destruct (Ascii.eqb c "<") eqn:C2; [apply Ascii.eqb_eq in C2; subst c |];
     [| destruct (Ascii.eqb c ">") eqn:C3; [apply Ascii.eqb_eq in C3; subst c |];
        [| destruct (Ascii.eqb c DQUOTE) eqn:C4;
           [apply Ascii.eqb_eq in C4; subst c |]]]].
  all: destruct (Ascii.eqb d "&") eqn:D1; [apply Ascii.eqb_eq in D1; subst d |];
    [| destruct (Ascii.eqb d "<") eqn:D2; [apply Ascii.eqb_eq in D2; subst d |];
       [| destruct (Ascii.eqb d ">") eqn:D3; [apply Ascii.eqb_eq in D3; subst d |];
          [| destruct (Ascii.eqb d DQUOTE) eqn:D4;
             [apply Ascii.eqb_eq in D4; subst d |]]]].
  all: simpl; intros H; try discriminate H.
  all: try (injection H as H; split; [reflexivity | assumption]).
  all: try (injection H as Hc H; subst;
            first [ rewrite Ascii.eqb_refl in C1; discriminate
                  | rewrite Ascii.eqb_refl in D1; discriminate
                  | split; reflexivity ]).
Qed.

(** X2.  Escaping loses nothing: two texts with the same escaped form are
    the same text. *)
Theorem escapeHtml_injective (a b : string) :
  escapeHtml a = escapeHtml b -> a = b.
Proof.
  revert b. induction a as [| c a IH]; intros [| d b] H.
  - reflexivity.
  - rewrite escapeHtml_cons in H. unfold escapeChar in H.
    destruct (Ascii.eqb d "&"); [discriminate |].
    destruct (Ascii.eqb d "<"); [discriminate |].
    destruct (Ascii.eqb d ">"); [discriminate |].
    destruct (Ascii.eqb d DQUOTE); discriminate.
  - rewrite escapeHtml_cons in H. unfold escapeChar in H.
    destruct (Ascii.eqb c "&"); [discriminate |].
    destruct (Ascii.eqb c "<"); [discriminate |].
    destruct (Ascii.eqb c ">"); [discriminate |].
    destruct (Ascii.eqb c DQUOTE); discriminate.
  - rewrite !escapeHtml_cons in H.
    apply escapeChar_cancel in H as [-> H]. f_equal. now apply IH.
Qed.

Lemma escapeHtml_injective_witness :
  escapeHtml "a<b" = escapeHtml ("a" ++ "<b") /\ "a<b" = "a" ++ "<b".
Proof.
  split; [reflexivity |].
  exact (escapeHtml_injective "a<b" ("a" ++ "<b") eq_refl).
Defined.

Lemma join_cons_prefix (sep p x : string) (l : list string) :
  join sep ((p ++ x) :: l) = p ++ join sep (x :: l).
Proof.
  destruct l as [| y l]; [reflexivity |].
  change (join sep ((p ++ x) :: y :: l)) with ((p ++ x) ++ sep ++ join sep (y :: l)).
  change (join sep (x :: y :: l)) with (x ++ sep ++ join sep (y :: l)).
  now rewrite append_assoc.
Qed.

Lemma replaceLF_escapeChar (c : ascii) :
  Ascii.eqb c LF = false ->
  replaceAll LF "<br>" (escapeChar c) = escapeChar c.
Proof.
  intros H. unfold escapeChar.
  destruct (Ascii.eqb c "&"); [reflexivity |].
  destruct (Ascii.eqb c "<"); [reflexivity |].
  destruct (Ascii.eqb c ">"); [reflexivity |].
  destruct (Ascii.eqb c DQUOTE); [reflexivity |].
  simpl. now rewrite H.
Qed.

(** X3.  [textToHtml] keeps the lines of the text: the result is the
    escaped lines joined by [<br>], and it contains no line feed. *)
Theorem textToHtml_lines (text : string) :
  textToHtml text = join "<br>" (map escapeHtml (split LF text))
  /\ mem_char LF (textToHtml text) = false.
Proof.
  unfold textToHtml. induction text as [| c r (IH & IHn)]; [now split |].
  rewrite escapeHtml_cons, replaceAll_app.
  destruct (Ascii.eqb c LF) eqn:E.
  - apply Ascii.eqb_eq in E. subst c. split.
    + change (split LF (String LF r)) with (EmptyString :: split LF r).
      destruct (split LF r) as [| h t] eqn:S; [now apply split_not_nil in S |].
      change (join "<br>" (map escapeHtml (EmptyString :: h :: t)))
        with ("<br>" ++ join "<br>" (map escapeHtml (h :: t))).
      now rewrite <- IH.
    + change (replaceAll LF "<br>" (escapeChar LF)) with "<br>".
      rewrite mem_char_app, IHn. reflexivity.
  - rewrite (replaceLF_escapeChar _ E). split.
    + destruct (split_cons_other LF c r E) as (h & t & S & ->).
      rewrite S in IH. simpl map. rewrite escapeHtml_cons, join_cons_prefix.
      now rewrite IH.
    + rewrite mem_char_app, IHn, orb_false_r.
      rewrite escapeChar_free by tauto. now rewrite E.
Qed.

End EscapeProps.

(** ** Address parsing *)

Module AddressProps.
Import JS ReplyUtils Spec SpecMore StringFacts ReplyUtilsProps.

Lemma mem_char_trimStart (c : ascii) (s : string) :
  mem_char c s = false -> mem_char c (trimStart s) = false.
Proof.
  induction s as [| d r IH]; [reflexivity |]. simpl. intros H.
  apply orb_false_iff in H as [H1 H2].
  destruct (is_ws d); [now apply IH |]. simpl. now rewrite H1, H2.
Qed.

Lemma mem_char_trimEnd (c : ascii) (s : string) :
  mem_char c s = false -> mem_char c (trimEnd s) = false.
Proof.
  induction s as [| d r IH]; [reflexivity |]. simpl. intros H.
  apply orb_false_iff in H as [H1 H2]. specialize (IH H2).
  destruct (trimEnd r) as [| e r'].
  - destruct (is_ws d); [reflexivity |]. simpl. now rewrite H1.
  - simpl in *. now rewrite H1, IH.
Qed.

Lemma mem_char_trim (c : ascii) (s : string) :
  mem_char c s = false -> mem_char c (trim s) = false.
Proof. intros H. now apply mem_char_trimEnd, mem_char_trimStart. Qed.

(** The bracket step of the pattern, by its first code unit after the
    white space. *)
Lemma match_bracket_head (s : string) :
  match_bracket s
  = match trimStart s with
    | EmptyString => None
    | String c r => if Ascii.eqb c "<" then match_address r else None
    end.
Proof.
  unfold match_bracket. destruct (trimStart s) as [| c r]; [reflexivity |].
  destruct c as [[] [] [] [] [] [] [] []]; reflexivity.
Qed.

Lemma match_bracket_none (s : string) :
  mem_char "<" s = false -> match_bracket s = None.
Proof.
  intros H. rewrite match_bracket_head.
  apply mem_char_trimStart in H.
  destruct (trimStart s) as [| c r]; [reflexivity |].
  simpl in H. apply orb_false_iff in H as [H _]. now rewrite H.
Qed.

Lemma match_lazy_none (s g : string) :
  mem_char "<" s = false -> match_lazy g s = None.
Proof.
  revert g. induction s as [| c r IH]; intros g H.
  - reflexivity.
  - simpl match_lazy. rewrite (match_bracket_none _ H).
    simpl in H. apply orb_false_iff in H as [_ H].
    destruct (is_line_terminator c); [reflexivity | now apply IH].
Qed.

(** X4.  A header without any [<] is a bare address: the name is empty and
    the address is the trimmed header. *)
Theorem parseEmailAddress_bare (header : string) :
  mem_char "<" header = false ->
  parseEmailAddress header = {| name := EmptyString; email := trim header |}.
Proof.
  intros H. unfold parseEmailAddress.
  apply mem_char_trim in H.
  destruct (trim header) as [| c r] eqn:T; [reflexivity |].
  simpl match_name_address. simpl in H. apply orb_false_iff in H as [_ H].
  destruct (is_line_terminator c); [reflexivity |].
  now rewrite (match_lazy_none _ _ H).
Qed.

Lemma parseEmailAddress_bare_witness :
  mem_char "<" "  bob@test.com " = false
  /\ parseEmailAddress "  bob@test.com "
     = {| name := EmptyString; email := "bob@test.com" |}.
Proof.
  split; [reflexivity |].
  exact (parseEmailAddress_bare "  bob@test.com " eq_refl).
Defined.

Lemma all_ws_trimStart (w : string) :
  all_ws w = true -> trimStart w = EmptyString.
Proof.
  induction w as [| c r IH]; [reflexivity |]. simpl. intros H.
  apply andb_true_iff in H as [Hc Hr]. rewrite Hc. now apply IH.
Qed.

Lemma trimEnd_app_ws (x w : string) :
  all_ws w = true -> trimEnd (x ++ w) = trimEnd x.
Proof.
  intros H. induction x as [| c r IH].
  - simpl. apply truthy_false. now apply trimEnd_all_ws.
  - simpl. now rewrite IH.
Qed.

Lemma trim_app_ws (x w : string) :
  all_ws w = true -> trim (x ++ w) = trim x.
Proof.
  intros H. unfold trim. induction x as [| c r IH].
  - simpl. now rewrite (all_ws_trimStart _ H).
  - simpl. destruct (is_ws c); [exact IH |].
    change (String c (r ++ w)) with (String c r ++ w).
    now apply trimEnd_app_ws.
Qed.

Lemma trimEnd_end_clean (s : string) (c : ascii) :
  is_ws c = false ->
  trimEnd (s ++ String c EmptyString) = s ++ String c EmptyString.
Proof.
  intros H. induction s as [| d r IH].
  - simpl. now rewrite H.
  - simpl. rewrite IH. destruct r; reflexivity.
Qed.

Lemma span_not_gt_closed (a : string) :
  mem_char ">" a = false -> span_not_gt (a ++ ">") = (a, ">").
Proof.
  induction a as [| c r IH]; [reflexivity |]. simpl. intros H.
  apply orb_false_iff in H as [H1 H2]. now rewrite H1, (IH H2).
Qed.

Lemma match_address_closed (a : string) :
  truthy a = true -> mem_char ">" a = false ->
  match_address (a ++ ">") = Some a.
Proof.
  intros Ht H. unfold match_address.
  now rewrite (span_not_gt_closed _ H), Ht.
Qed.

Lemma match_bracket_after (n rest : string) :
  mem_char "<" n = false ->
  match_bracket (n ++ String "<" rest)
  = if all_ws n then match_address rest else None.
Proof.
  intros H. rewrite match_bracket_head.
  induction n as [| c r IH]; [reflexivity |]. simpl in *.
  apply orb_false_iff in H as [H1 H2].
  destruct (is_ws c); simpl; [now apply IH | now rewrite H1].
Qed.

Lemma match_lazy_named (addr n g : string) :
  truthy addr = true -> mem_char ">" addr = false ->
  mem_char "<" n = false -> oneLine n = true ->
  exists p w,
    n = p ++ w /\ all_ws w = true
    /\ match_lazy g (n ++ String "<" (addr ++ ">")) = Some (g ++ p, addr).
Proof.
  intros Ht Hgt. revert g. induction n as [| c r IH]; intros g Hlt Hone.
  - exists EmptyString, EmptyString. repeat split.
    simpl. rewrite append_nil_r.
    change (match_bracket (String "<" (addr ++ ">")))
      with (match_address (addr ++ ">")).
    now rewrite match_address_closed.
  - destruct (all_ws (String c r)) eqn:W.
    + exists EmptyString, (String c r). repeat split; [exact W |].
      pose proof (match_bracket_after (String c r) (addr ++ ">") Hlt) as B.
      rewrite W, match_address_closed in B by assumption.
      change ((String c r) ++ String "<" (addr ++ ">"))
        with (String c (r ++ String "<" (addr ++ ">"))) in *.
      simpl match_lazy. rewrite B. now rewrite append_nil_r.
    + pose proof (match_bracket_after (String c r) (addr ++ ">") Hlt) as B.
      rewrite W in B.
      change ((String c r) ++ String "<" (addr ++ ">"))
        with (String c (r ++ String "<" (addr ++ ">"))) in *.
      simpl match_lazy. rewrite B.
      simpl in Hlt, Hone. apply orb_false_iff in Hlt as [_ Hlt].
      apply andb_true_iff in Hone as [Hc Hone].
      apply negb_true_iff in Hc. rewrite Hc.
      destruct (IH (g ++ String c EmptyString) Hlt Hone) as (p & w & -> & Hw & E).
      exists (String c p), w. repeat split; [exact Hw |].
      rewrite E. now rewrite append_assoc.
Qed.

(** X5.  A header made of a name and a bracketed address is split at the
    bracket: for a name that starts with a visible code unit and contains
    no [<] and no line break, and a non-empty address without [>], the
    parsed name is the trimmed name and the parsed address the trimmed
    address. *)
Theorem parseEmailAddress_named (n addr : string) :
  truthy n = true -> starts_clean n = true ->
  mem_char "<" n = false -> oneLine n = true ->
  truthy addr = true -> mem_char ">" addr = false ->
  parseEmailAddress (n ++ "<" ++ addr ++ ">")
  = {| name := trim n; email := trim addr |}.
Proof.
  intros Hn Hclean Hlt Hone Ha Hgt.
  destruct n as [| c r]; [discriminate |].
  simpl in Hclean. apply negb_true_iff in Hclean.
  simpl in Hlt. apply orb_false_iff in Hlt as [_ Hlt].
  simpl in Hone. apply andb_true_iff in Hone as [Hc Hone].
  apply negb_true_iff in Hc.
  unfold parseEmailAddress.
  assert (T : trim (String c r ++ "<" ++ addr ++ ">")
              = String c (r ++ String "<" (addr ++ ">"))).
  { unfold trim. simpl trimStart. rewrite Hclean.
    replace (String c (r ++ String "<" (addr ++ ">")))
      with ((String c (r ++ String "<" addr)) ++ ">")
      by (simpl; now rewrite append_assoc).
    now apply trimEnd_end_clean. }
  rewrite T. simpl match_name_address. rewrite Hc.
  destruct (match_lazy_named addr r (String c EmptyString) Ha Hgt Hlt Hone)
    as (p & w & -> & Hw & E).
  rewrite E. f_equal.
  change (String c (p ++ w)) with (String c p ++ w).
  now rewrite (trim_app_ws (String c p) w Hw).
Qed.

Lemma parseEmailAddress_named_witness :
  parseEmailAddress ("John Doe " ++ "<" ++ " john@example.com" ++ ">")
  = {| name := "John Doe"; email := "john@example.com" |}.
Proof.
  exact (parseEmailAddress_named "John Doe " " john@example.com"
           eq_refl eq_refl eq_refl eq_refl eq_refl eq_refl).
Defined.

(** X6.  Whatever the header, the parsed name and address carry no white
    space at either end. *)
Theorem parseEmailAddress_trimmed (header : string) :
  trim (name (parseEmailAddress header)) = name (parseEmailAddress header)
  /\ trim (email (parseEmailAddress header)) = email (parseEmailAddress header).
Proof.
  unfold parseEmailAddress.
  destruct (match_name_address (trim header)) as [[g1 g2] |]; simpl;
    split; auto using trim_idem.
Qed.

Lemma split_keeps_free (c sep : ascii) (s : string) :
  mem_char c s = false ->
  Forall (fun x => mem_char c x = false) (split sep s).
Proof.
  induction s as [| d r IH]; simpl; intros H.
  - constructor; [reflexivity | constructor].
  - apply orb_false_iff in H as [H1 H2]. specialize (IH H2).
    destruct (Ascii.eqb d sep).
    + constructor; [reflexivity | exact IH].
    + destruct (split sep r) as [| h t]; simpl.
      * constructor; [simpl; now rewrite H1 | constructor].
      * inversion IH; subst. constructor; [| assumption].
        simpl. rewrite H1. assumption.
Qed.

Lemma filter_map_ext_in {A B} (p q : B -> bool) (f g : A -> B) (l : list A) :
  (forall x, In x l -> f x = g x /\ p (f x) = q (g x)) ->
  filter p (map f l) = filter q (map g l).
Proof.
  induction l as [| x l IH]; simpl; intros H; [reflexivity |].
  destruct (H x (or_introl eq_refl)) as [E1 E2].
  rewrite E2, E1, IH; [reflexivity |]. intros y Hy. apply H. now right.
Qed.

(** X7.  A list header without any [<] gives its comma-separated pieces,
    trimmed, in order, without the empty ones; and whatever the header,
    every address of the result is non-empty and trimmed. *)
Theorem parseEmailList_entries (header : string) :
  (mem_char "<" header = false ->
   parseEmailList header = filter truthy (map trim (split "," header)))
  /\ Forall (fun e => truthy e = true /\ trim e = e) (parseEmailList header).
Proof.
  split.
  - intros H. unfold parseEmailList.
    destruct (negb (truthy header) || negb (truthy (trim header))) eqn:G.
    + assert (W : all_ws header = true).
      { apply trim_all_ws. apply orb_true_iff in G as [G | G].
        - apply negb_true_iff, truthy_false in G. now subst.
        - now apply negb_true_iff in G. }
      rewrite split_no_sep by now apply all_ws_no_comma.
      simpl. apply trim_all_ws in W. now rewrite W.
    + apply filter_map_ext_in. intros seg Hin.
      pose proof (split_keeps_free "<" "," header H) as F.
      rewrite Forall_forall in F. specialize (F seg Hin).
      rewrite (parseEmailAddress_bare (trim seg))
        by now apply mem_char_trim.
      simpl. rewrite trim_idem. split; [reflexivity |].
      apply length_pos_truthy.
  - unfold parseEmailList.
    destruct (negb (truthy header) || negb (truthy (trim header)));
      [constructor |].
    apply Forall_forall. intros e He. apply filter_In in He as [He Hlen].
    rewrite length_pos_truthy in Hlen. split; [exact Hlen |].
    apply in_map_iff in He as (seg & <- & _).
    apply parseEmailAddress_trimmed.
Qed.

Lemma parseEmailList_entries_witness :
  mem_char "<" "a@x.com , ,b@y.com" = false
  /\ parseEmailList "a@x.com , ,b@y.com" = ["a@x.com"; "b@y.com"].
Proof.
  split; [reflexivity |].
  exact (proj1 (parseEmailList_entries "a@x.com , ,b@y.com") eq_refl).
Defined.

(** ** Self filter, reply subject, quoting *)

Lemma filter_idem {A} (f : A -> bool) (l : list A) :
  filter f (filter f l) = filter f l.
Proof.
  induction l as [| x l IH]; simpl; [reflexivity |].
  destruct (f x) eqn:E; simpl; rewrite ?E, IH; reflexivity.
Qed.

(** X8.  After [filterSelfFromRecipients] no address of the list equals the
    account's up to letter case; filtering again changes nothing; and a
    list that did not contain the account's address comes back as it was. *)
Theorem filterSelf_stable (recipients : list string) (selfEmail : string) :
  forallb (fun e => negb (String.eqb (toLowerCase e) (toLowerCase selfEmail)))
    (filterSelfFromRecipients recipients selfEmail) = true
  /\ filterSelfFromRecipients
       (filterSelfFromRecipients recipients selfEmail) selfEmail
     = filterSelfFromRecipients recipients selfEmail
  /\ (forallb (fun e => negb (String.eqb (toLowerCase e) (toLowerCase selfEmail)))
        recipients = true ->
      filterSelfFromRecipients recipients selfEmail = recipients).
Proof.
  unfold filterSelfFromRecipients. split; [| split].
  - apply forallb_forall. intros e He. now apply filter_In in He as [_ He].
  - apply filter_idem.
  - intros H. induction recipients as [| x l IH]; [reflexivity |].
    simpl in *. apply andb_true_iff in H as [Hx Hl].
    rewrite Hx. now rewrite (IH Hl).
Qed.

Lemma filterSelf_stable_witness :
  forallb (fun e => negb (String.eqb (toLowerCase e) (toLowerCase "me@x.com")))
    ["bob@y.com"; "carol@z.com"] = true
  /\ filterSelfFromRecipients ["bob@y.com"; "carol@z.com"] "me@x.com"
     = ["bob@y.com"; "carol@z.com"].
Proof.
  split; [reflexivity |].
  exact (proj2 (proj2 (filterSelf_stable ["bob@y.com"; "carol@z.com"] "me@x.com"))
           eq_refl).
Defined.

Lemma has_re_prefix_trim_Re (x : string) :
  has_re_prefix (trim ("Re: " ++ x)) = true.
Proof.
  unfold trim.
  change (trimStart ("Re: " ++ x))
    with (String "R" (String "e" (String ":" (String " " x)))).
  rewrite (trimEnd_cons_nonws "R") by reflexivity.
  rewrite (trimEnd_cons_nonws "e") by reflexivity.
  rewrite (trimEnd_cons_nonws ":") by reflexivity.
  reflexivity.
Qed.

(** X9.  The result of [formatReplySubject] always starts with a reply
    prefix, and from the second application on the function returns its
    argument: a third call gives what the second gave, for every subject,
    the empty one included. *)
Theorem formatReplySubject_settles (subject : string) :
  has_re_prefix (formatReplySubject subject) = true
  /\ formatReplySubject (formatReplySubject (formatReplySubject subject))
     = formatReplySubject (formatReplySubject subject).
Proof.
  assert (P : forall s, has_re_prefix (formatReplySubject s) = true).
  { intros s. unfold formatReplySubject.
    destruct (has_re_prefix (trim s)) eqn:E; [exact E | reflexivity]. }
  assert (Q : forall s, has_re_prefix (trim (formatReplySubject s)) = true).
  { intros s. unfold formatReplySubject.
    destruct (has_re_prefix (trim s)) eqn:E; [now rewrite trim_idem |].
    apply has_re_prefix_trim_Re. }
  assert (Second : forall s, formatReplySubject (formatReplySubject s)
                             = trim (formatReplySubject s)).
  { intros s. unfold formatReplySubject at 1. now rewrite Q. }
  split; [apply P |].
  rewrite (Second subject). unfold formatReplySubject at 1.
  now rewrite trim_idem, Q.
Qed.

Lemma unquote_quoteLine (l : list string) :
  map unquoteLine (map quoteLine l) = l.
Proof.
  induction l as [| x l IH]; simpl; [reflexivity | now rewrite IH].
Qed.

(** X10.  Quoting can be undone: taking the first two code units off every
    line of [formatQuotedBody body] gives [body] back, so two different
    bodies never have the same quoted form. *)
Theorem formatQuotedBody_unquote (body : string) :
  unquote (formatQuotedBody body) = body.
Proof.
  destruct body as [| c r]; [reflexivity |].
  unfold unquote, formatQuotedBody. simpl truthy. cbv iota. simpl negb. cbv iota.
  rewrite split_join.
  - rewrite unquote_quoteLine. apply join_split.
  - intros E. apply map_eq_nil in E. now apply split_not_nil in E.
  - apply quoted_lines_no_LF.
Qed.

End AddressProps.

(** ** The composer: requests, failures, the caller's options *)

Module ComposeMoreProps.
Import JS ReplyUtils Gmail Spec SpecMore StringFacts ReplyUtilsProps
  ResolverProps ComposerProps.
#[local] Open Scope list_scope.

Lemma store_eta (st : Store) :
  st = {| options := options st; calls := calls st ++ [] |}.
Proof. destruct st. simpl. now rewrite app_nil_r. Qed.

(** What the auto-fill leaves in the store, whatever its outcome: the
    requests it adds are fetches, and [options] is as before or has had its
    [cc] assigned, the latter only on a reply to all without recipients. *)
Lemma autoFill_trace (host : Host) (tid0 : option string)
    (email : string) (to : option (list string)) (subject body : string)
    (st : Store) :
  exists fetches o',
    snd (autoFill host tid0 email to subject body st)
    = {| options := o'; calls := calls st ++ fetches |}
    /\ forallb (fun c => negb (isSubmit c)) fetches = true
    /\ (o' = options st
        \/ (exists v, o' = with_cc v (options st))
           /\ truthy_opt (Options.replyToMessageId (options st)) = true
           /\ noRecipients to = true
           /\ is_set (Options.replyAll (options st)) = true).
Proof.
  destruct (truthy_opt (Options.replyToMessageId (options st))) eqn:T.
  - destruct (accountKnown host email) eqn:Hacc.
    + destruct (getMessageForReply_run host email
                  (or_empty (Options.replyToMessageId (options st))) st Hacc)
        as (target & G & _).
      destruct (messages_get host target) as [msg |].
      * rewrite (autoFill_reply _ _ _ _ _ _ _ _ _ T G). simpl.
        eexists. eexists. split; [reflexivity |]. split; [reflexivity |].
        destruct (noRecipients to); simpl; [| now left].
        destruct (is_set (Options.replyAll (options st))); [| now left].
        right. split; [eexists; reflexivity | auto].
      * rewrite (autoFill_reply_thrown _ _ _ _ _ _ _ _ T G). simpl.
        eexists. eexists. split; [reflexivity |]. split; [reflexivity | now left].
    + assert (G : getMessageForReply host email
                    (or_empty (Options.replyToMessageId (options st))) st
                  = (Thrown, st)).
      { unfold getMessageForReply, getGmailClient, bind. now rewrite Hacc. }
      rewrite (autoFill_reply_thrown _ _ _ _ _ _ _ _ T G). simpl.
      exists [], (options st). split; [apply store_eta |].
      split; [reflexivity | now left].
  - rewrite (autoFill_noreply _ _ _ _ _ _ _ T). simpl.
    exists [], (options st). split; [apply store_eta |].
    split; [reflexivity | now left].
Qed.

Lemma composeWith_store (host : Host) (tid0 : option string)
    (email : string) (to : option (list string)) (subject body : string)
    (st : Store) :
  snd (composeWith host tid0 email to subject body st)
  = snd (autoFill host tid0 email to subject body st).
Proof.
  unfold composeWith, bind, ret.
  destruct (autoFill host tid0 email to subject body st) as [[l |] st1];
    [| reflexivity].
  pose proof (assemble_store host email body l st1) as S.
  destruct (assemble host email body l st1) as [[a |] st2]; exact S.
Qed.

(** The store after either entry point has composed, or failed to. *)
Lemma message_trace (host : Host) (email : string)
    (to : option (list string)) (subject body : string) (st : Store) :
  forall r,
    r = createDraft_message host email to subject body st
    \/ r = sendMessage_message host email to subject body st ->
    exists fetches o',
      snd r = {| options := o'; calls := calls st ++ fetches |}
      /\ forallb (fun c => negb (isSubmit c)) fetches = true
      /\ (o' = options st
          \/ (exists v, o' = with_cc v (options st))
             /\ truthy_opt (Options.replyToMessageId (options st)) = true
             /\ noRecipients to = true
             /\ is_set (Options.replyAll (options st)) = true).
Proof.
  intros r [-> | ->].
  - rewrite createDraft_message_unfold.
    destruct (accountKnown host email).
    + rewrite composeWith_store. apply autoFill_trace.
    + exists [], (options st). split; [apply store_eta |].
      split; [reflexivity | now left].
  - rewrite sendMessage_message_unfold.
    destruct (accountKnown host email).
    + rewrite composeWith_store. apply autoFill_trace.
    + exists [], (options st). split; [apply store_eta |].
      split; [reflexivity | now left].
Qed.

Lemma filter_none {A} (f : A -> bool) (l : list A) :
  forallb (fun c => negb (f c)) l = true -> filter f l = [].
Proof.
  induction l as [| x l IH]; simpl; [reflexivity |]. intros H.
  apply andb_true_iff in H as [Hx Hl]. apply negb_true_iff in Hx.
  rewrite Hx. now apply IH.
Qed.



(** Composing fails when the account is unknown, when an attachment cannot
    be read, or when there is neither a recipient list nor a reply target. *)
Lemma message_blocked (host : Host) (email : string)
    (to : option (list string)) (subject body : string) (st : Store) :
  accountKnown host email = false
  \/ readable host (or_nil (Options.attachments (options st))) = false
  \/ (to = None
      /\ truthy_opt (Options.replyToMessageId (options st)) = false) ->
  fst (createDraft_message host email to subject body st) = Thrown
  /\ fst (sendMessage_message host email to subject body st) = Thrown.
Proof.
  intros Hcause.
  assert (K : forall r l a st',
             r = (Returned (l, a), st') ->
             r = createDraft_message host email to subject body st
             \/ r = sendMessage_message host email to subject body st -> False).
  { intros r l a st' -> Hr.
    assert (H : createDraft_message host email to subject body st
                = (Returned (l, a), st')
                \/ sendMessage_message host email to subject body st
                   = (Returned (l, a), st'))
      by (destruct Hr as [Hr | Hr]; [left | right]; now symmetry).
    destruct (message_returned _ _ _ _ _ _ _ _ _ H) as (tid0 & A & B).
    destruct (assemble_returned _ _ _ _ _ _ _ B) as (_ & rs & Hrs & Hread).
    destruct (autoFill_options _ _ _ _ _ _ _ _ _ A) as (Hatt & _).
    destruct Hcause as [Hacc | [Hunread | (Hto & T)]].
    - destruct H as [H | H].
      + rewrite createDraft_message_unfold, Hacc in H. discriminate.
      + rewrite sendMessage_message_unfold, Hacc in H. discriminate.
    - rewrite Hatt, Hunread in Hread. discriminate.
    - rewrite (autoFill_noreply _ _ _ _ _ _ _ T) in A.
      inversion A; subst. simpl in Hrs. discriminate. }
  split.
  - destruct (createDraft_message host email to subject body st)
      as [[[l a] |] st'] eqn:E; [| reflexivity].
    exfalso. exact (K _ l a st' eq_refl (or_introl eq_refl)).
  - destruct (sendMessage_message host email to subject body st)
      as [[[l a] |] st'] eqn:E; [| reflexivity].
    exfalso. exact (K _ l a st' eq_refl (or_intror eq_refl)).
Qed.

(** X12.  A compose call whose account is unknown, one of whose attachments
    cannot be read, or that has neither a recipient list nor a reply
    target, fails, in [createDraft] and in [sendMessage], and submits
    nothing: the submit requests in the log are the ones that were there. *)
Theorem blocked_compose_submits_nothing (host : Host) (email : string)
    (to : option (list string)) (subject body : string) (st : Store) :
  accountKnown host email = false
  \/ readable host (or_nil (Options.attachments (options st))) = false
  \/ (to = None
      /\ truthy_opt (Options.replyToMessageId (options st)) = false) ->
  (fst (createDraft host email to subject body st) = Thrown
   /\ filter isSubmit (calls (snd (createDraft host email to subject body st)))
      = filter isSubmit (calls st))
  /\ (fst (sendMessage host email to subject body st) = Thrown
      /\ filter isSubmit (calls (snd (sendMessage host email to subject body st)))
         = filter isSubmit (calls st)).
Proof.
  intros Hcause.
  destruct (message_blocked host email to subject body st Hcause) as (Bd & Bs).
  destruct (message_trace host email to subject body st _ (or_introl eq_refl))
    as (fd & od & Sd & Fd & _).
  destruct (message_trace host email to subject body st _ (or_intror eq_refl))
    as (fs & os & Ss & Fs & _).
  split.
  - unfold createDraft, bind.
    destruct (createDraft_message host email to subject body st)
      as [[la |] st1]; [discriminate |].
    simpl in *. subst st1. simpl. split; [reflexivity |].
    now rewrite filter_app, (filter_none _ _ Fd), app_nil_r.
  - unfold sendMessage, bind.
    destruct (sendMessage_message host email to subject body st)
      as [[la |] st1]; [discriminate |].
    simpl in *. subst st1. simpl. split; [reflexivity |].
    now rewrite filter_app, (filter_none _ _ Fs), app_nil_r.
Qed.

Lemma blocked_compose_submits_nothing_witness :
  readable Sample.host
    (or_nil (Options.attachments
               (options (Sample.fresh (SampleMore.replyWithMissing "t1")))))
  = false
  /\ fst (sendMessage Sample.host "me@x.com" (Some []) "" "Sure."
            (Sample.fresh (SampleMore.replyWithMissing "t1"))) = Thrown.
Proof.
  split; [reflexivity |].
  exact (proj1 (proj2 (blocked_compose_submits_nothing Sample.host "me@x.com"
                         (Some []) "" "Sure."
                         (Sample.fresh (SampleMore.replyWithMissing "t1"))
                         (or_intror (or_introl eq_refl))))).
Defined.

(** A completed run with a reply target, spelled out: the message that
    was fetched, the requests made, the locals. *)
Lemma reply_run_locals (host : Host) (email : string)
    (to : option (list string)) (subject body : string)
    (st st' : Store) (l : Locals) (a : Assembled) :
  createDraft_message host email to subject body st = (Returned (l, a), st')
  \/ sendMessage_message host email to subject body st = (Returned (l, a), st') ->
  truthy_opt (Options.replyToMessageId (options st)) = true ->
  exists target msg rs,
    messages_get host target = Some msg
    /\ calls st'
       = calls st
         ++ [ThreadsGet (or_empty (Options.replyToMessageId (options st)));
             MessagesGet target]
    /\ options st'
       = (if noRecipients to && is_set (Options.replyAll (options st))
          then with_cc (or_nil (Options.cc (options st))
                        ++ filterSelfFromRecipients
                             (ReplyData.to (replyDataOf host msg)
                              ++ ReplyData.cc (replyDataOf host msg)) email)
                 (options st)
          else options st)
    /\ l = {| recipientList :=
                if noRecipients to
                then Some [ReplyUtils.email
                             (parseEmailAddress
                                (ReplyData.from (replyDataOf host msg)))]
                else to;
              subjectLine :=
                if negb (truthy subject)
                then formatReplySubject (ReplyData.subject (replyDataOf host msg))
                else subject;
              bodyText :=
                if quoteWanted (options st)
                then (body ++ formatGmailQuote host
                                (ReplyData.date (replyDataOf host msg))
                                (ReplyData.from (replyDataOf host msg))
                                (ReplyData.body (replyDataOf host msg)))%string
                else body;
              v_inReplyTo := Some (ReplyData.inReplyTo (replyDataOf host msg));
              v_references := Some (ReplyData.references (replyDataOf host msg));
              v_threadId := Some (ReplyData.threadId (replyDataOf host msg));
              replyData := Some (replyDataOf host msg) |}
    /\ recipientList l = Some rs
    /\ headers a = headerBlock email rs (options st') l (contentType a).
Proof.
  intros H T.
  destruct (message_returned _ _ _ _ _ _ _ _ _ H) as (tid0 & A & B).
  destruct (autoFill_returned _ _ _ _ _ _ _ _ _ T A) as (rd & st1 & G).
  destruct (getMessageForReply_returned _ _ _ _ _ _ G) as (Hacc & _).
  destruct (getMessageForReply_run host email
              (or_empty (Options.replyToMessageId (options st))) st Hacc)
    as (target & G' & _).
  rewrite G in G'.
  destruct (messages_get host target) as [msg |] eqn:M; [| discriminate].
  inversion G'; subst rd st1; clear G'.
  rewrite (autoFill_reply _ _ _ _ _ _ _ _ _ T G) in A.
  destruct (assemble_returned _ _ _ _ _ _ _ B) as (_ & rs & Hrs & Hread).
  destruct (assemble_run host email body l st' rs Hrs Hread)
    as (a' & B' & _ & Hh & _).
  rewrite B in B'. inversion B'; subst a'.
  exists target, msg, rs. split; [exact M |].
  inversion A; subst; clear A. simpl in *.
  repeat split; assumption || reflexivity.
Qed.

(** A completed run without a reply target: nothing is filled in. *)
Lemma plain_run_locals (host : Host) (tid0 : option string) (email : string)
    (to : option (list string)) (subject body : string)
    (st st' : Store) (l : Locals) (a : Assembled) :
  composeWith host tid0 email to subject body st = (Returned (l, a), st') ->
  truthy_opt (Options.replyToMessageId (options st)) = false ->
  st' = st
  /\ l = {| recipientList := to; subjectLine := subject; bodyText := body;
            v_inReplyTo := None; v_references := None;
            v_threadId := tid0; replyData := None |}.
Proof.
  intros H T. apply composeWith_returned in H as [A _].
  rewrite (autoFill_noreply _ _ _ _ _ _ _ T) in A.
  inversion A; subst. now split.
Qed.

(** X13.  Where a message is filed.  A reply goes to the thread of the
    message that was fetched as reply target, whatever [threadId] the caller
    passed, after exactly one thread fetch and one message fetch.  Without a
    reply target no fetch is made; [createDraft] then files the draft in
    [options.threadId], and [sendMessage] names no thread. *)
Theorem thread_association (host : Host) (email : string)
    (to : option (list string)) (subject body : string)
    (st st' : Store) (l : Locals) (a : Assembled) :
  (createDraft_message host email to subject body st = (Returned (l, a), st')
   \/ sendMessage_message host email to subject body st = (Returned (l, a), st') ->
   truthy_opt (Options.replyToMessageId (options st)) = true ->
   exists target msg,
     messages_get host target = Some msg
     /\ calls st'
        = calls st
          ++ [ThreadsGet (or_empty (Options.replyToMessageId (options st)));
              MessagesGet target]
     /\ v_threadId l = Some (or_empty (m_threadId msg)))
  /\ (createDraft_message host email to subject body st = (Returned (l, a), st') ->
      truthy_opt (Options.replyToMessageId (options st)) = false ->
      calls st' = calls st /\ v_threadId l = Options.threadId (options st))
  /\ (sendMessage_message host email to subject body st = (Returned (l, a), st') ->
      truthy_opt (Options.replyToMessageId (options st)) = false ->
      calls st' = calls st /\ v_threadId l = None).
Proof.
  split; [| split].
  - intros H T.
    destruct (reply_run_locals _ _ _ _ _ _ _ _ _ H T)
      as (target & msg & rs & M & C & _ & -> & _).
    exists target, msg. repeat split; assumption.
  - intros H T. rewrite createDraft_message_unfold in H.
    destruct (accountKnown host email); [| discriminate].
    destruct (plain_run_locals _ _ _ _ _ _ _ _ _ _ H T) as (-> & ->).
    now split.
  - intros H T. rewrite sendMessage_message_unfold in H.
    destruct (accountKnown host email); [| discriminate].
    destruct (plain_run_locals _ _ _ _ _ _ _ _ _ _ H T) as (-> & ->).
    now split.
Qed.

Lemma thread_association_witness :
  exists l a st',
    createDraft_message Sample.host "me@x.com" (Some ["alice@example.com"])
      "Re: Lunch" "Sure."
      (Sample.fresh (SampleMore.replyInThread "t1" "elsewhere"))
    = (Returned (l, a), st')
    /\ v_threadId l = Some "t1".
Proof.
  eexists. eexists. eexists. split.
  - lazy. reflexivity.
  - destruct (proj1 (thread_association Sample.host "me@x.com"
                       (Some ["alice@example.com"]) "Re: Lunch" "Sure."
                       (Sample.fresh (SampleMore.replyInThread "t1" "elsewhere"))
                       _ _ _)
                (or_introl eq_refl) eq_refl)
      as (target & msg & M & C & Tid).
    refine (eq_trans Tid _).
    lazy in C. injection C as <-.
    lazy in M. injection M as <-. reflexivity.
Defined.

Lemma headerBlock_threading (email : string) (recipients : list string)
    (o : Options.t) (l : Locals) (ct : string) :
  (truthy_opt (v_inReplyTo l) = true ->
   In ("In-Reply-To: " ++ or_empty (v_inReplyTo l))%string
      (headerBlock email recipients o l ct))
  /\ (truthy_opt (v_references l) = true ->
      In ("References: " ++ or_empty (v_references l))%string
         (headerBlock email recipients o l ct))
  /\ In ("Subject: " ++ subjectLine l)%string
        (headerBlock email recipients o l ct).
Proof.
  unfold headerBlock. repeat split.
  - intros H. rewrite H. apply filter_In. split; [| reflexivity].
    do 5 right. now left.
  - intros H. rewrite H. apply filter_In. split; [| reflexivity].
    do 6 right. now left.
  - apply filter_In. split; [| reflexivity]. do 4 right. now left.
Qed.



(** X15.  Auto-fill never overrides what the caller gave: in a reply,
    explicit recipients are kept and [options] stays untouched, an explicit
    subject is kept (an empty one becomes the reply subject of the
    original), and the text is the caller's body, followed by the quote
    unless [includeQuote] is [false]. *)
Theorem explicit_values_kept (host : Host) (email : string)
    (to : option (list string)) (subject body : string)
    (st st' : Store) (l : Locals) (a : Assembled) :
  createDraft_message host email to subject body st = (Returned (l, a), st')
  \/ sendMessage_message host email to subject body st = (Returned (l, a), st') ->
  truthy_opt (Options.replyToMessageId (options st)) = true ->
  exists rd,
    replyData l = Some rd
    /\ (noRecipients to = false ->
        recipientList l = to /\ options st' = options st)
    /\ (truthy subject = true -> subjectLine l = subject)
    /\ (truthy subject = false ->
        subjectLine l = formatReplySubject (ReplyData.subject rd))
    /\ In ("Subject: " ++ subjectLine l)%string (headers a)
    /\ (Options.includeQuote (options st) = Some false -> bodyText l = body)
    /\ (Options.includeQuote (options st) <> Some false ->
        bodyText l
        = (body ++ formatGmailQuote host (ReplyData.date rd)
                     (ReplyData.from rd) (ReplyData.body rd))%string).
Proof.
  intros H T.
  destruct (reply_run_locals _ _ _ _ _ _ _ _ _ H T)
    as (target & msg & rs & M & _ & Ho & Hl & _ & Hh).
  exists (replyDataOf host msg).
  split; [now rewrite Hl |]. split; [| split; [| split; [| split; [| split]]]].
  - intros N. rewrite N in Ho. simpl in Ho. rewrite Hl. simpl. now rewrite N.
  - intros S. rewrite Hl. simpl. now rewrite S.
  - intros S. rewrite Hl. simpl. now rewrite S.
  - rewrite Hh. apply headerBlock_threading.
  - intros Q. rewrite Hl. simpl. unfold quoteWanted. now rewrite Q.
  - intros Q. rewrite Hl. simpl. unfold quoteWanted.
    destruct (Options.includeQuote (options st)) as [[|] |];
      try reflexivity. now contradiction Q.
Qed.

Lemma explicit_values_kept_witness :
  exists l a st',
    createDraft_message Sample.host "me@x.com" (Some ["bob@y.com"])
      "Change of plan" "Sure."
      (Sample.fresh (Sample.plainReplyTo "t1")) = (Returned (l, a), st')
    /\ recipientList l = Some ["bob@y.com"]
    /\ subjectLine l = "Change of plan"
    /\ bodyText l = "Sure.".
Proof.
  eexists. eexists. eexists. split.
  - lazy. reflexivity.
  - destruct (explicit_values_kept Sample.host "me@x.com" (Some ["bob@y.com"])
                "Change of plan" "Sure."
                (Sample.fresh (Sample.plainReplyTo "t1")) _ _ _
                (or_introl eq_refl) eq_refl)
      as (rd & _ & Hto & Hsub & _ & _ & Hq & _).
    split; [exact (proj1 (Hto eq_refl)) |].
    split; [exact (Hsub eq_refl) | exact (Hq eq_refl)].
Defined.

Lemma with_cc_frame (v : list string) (o : Options.t) :
  Options.bcc (with_cc v o) = Options.bcc o
  /\ Options.threadId (with_cc v o) = Options.threadId o
  /\ Options.replyToMessageId (with_cc v o) = Options.replyToMessageId o
  /\ Options.attachments (with_cc v o) = Options.attachments o
  /\ Options.replyAll (with_cc v o) = Options.replyAll o
  /\ Options.includeQuote (with_cc v o) = Options.includeQuote o.
Proof. repeat split. Qed.

Lemma submit_keeps_options (host : Host) (email : string)
    (to : option (list string)) (subject body : string) (st : Store) :
  optionsAfter (createDraft host email to subject body st)
  = optionsAfter (createDraft_message host email to subject body st)
  /\ optionsAfter (sendMessage host email to subject body st)
     = optionsAfter (sendMessage_message host email to subject body st).
Proof.
  unfold optionsAfter, createDraft, sendMessage, bind,
    gmail_drafts_create, gmail_messages_send, request.
  split.
  - destruct (createDraft_message host email to subject body st)
      as [[la |] st1]; [| reflexivity].
    now destruct (drafts_create host _ _).
  - destruct (sendMessage_message host email to subject body st)
      as [[la |] st1]; [| reflexivity].
    now destruct (messages_send host _ _).
Qed.

(** X16.  What a call can do to the caller's [options] object, whether it
    succeeds or fails: every field other than [cc] is left as it was, and
    the object is left entirely as it was unless the call is a reply to all
    without explicit recipients. *)
Theorem options_frame (host : Host) (email : string)
    (to : option (list string)) (subject body : string) (st : Store) :
  forall o',
    o' = optionsAfter (createDraft host email to subject body st)
    \/ o' = optionsAfter (sendMessage host email to subject body st) ->
    Options.bcc o' = Options.bcc (options st)
    /\ Options.threadId o' = Options.threadId (options st)
    /\ Options.replyToMessageId o' = Options.replyToMessageId (options st)
    /\ Options.attachments o' = Options.attachments (options st)
    /\ Options.replyAll o' = Options.replyAll (options st)
    /\ Options.includeQuote o' = Options.includeQuote (options st)
    /\ (truthy_opt (Options.replyToMessageId (options st))
        && noRecipients to && is_set (Options.replyAll (options st)) = false ->
        o' = options st).
Proof.
  intros o' Ho.
  destruct (submit_keeps_options host email to subject body st) as (Ed & Es).
  assert (K : exists fetches o1,
             {| options := o'; calls := calls st ++ fetches |}
             = {| options := o1; calls := calls st ++ fetches |}
             /\ (o1 = options st
                 \/ (exists v, o1 = with_cc v (options st))
                    /\ truthy_opt (Options.replyToMessageId (options st)) = true
                    /\ noRecipients to = true
                    /\ is_set (Options.replyAll (options st)) = true)).
  { destruct Ho as [-> | ->].
    - rewrite Ed. unfold optionsAfter.
      destruct (message_trace host email to subject body st _ (or_introl eq_refl))
        as (f & o1 & S & _ & C).
      exists f, o1. rewrite S. now split.
    - rewrite Es. unfold optionsAfter.
      destruct (message_trace host email to subject body st _ (or_intror eq_refl))
        as (f & o1 & S & _ & C).
      exists f, o1. rewrite S. now split. }
  destruct K as (f & o1 & E & C). inversion E; subst o1; clear E.
  destruct C as [-> | ((v & ->) & T & N & R)].
  - repeat split; reflexivity.
  - destruct (with_cc_frame v (options st)) as (? & ? & ? & ? & ? & ?).
    repeat split; try assumption.
    rewrite T, N, R. discriminate.
Qed.

Lemma options_frame_witness :
  truthy_opt (Options.replyToMessageId
                (options (Sample.fresh (Sample.replyWithReport "t1"))))
  && noRecipients (Some [])
  && is_set (Options.replyAll
               (options (Sample.fresh (Sample.replyWithReport "t1")))) = false
  /\ optionsAfter (createDraft Sample.host "me@x.com" (Some []) "" "Sure."
                     (Sample.fresh (Sample.replyWithReport "t1")))
     = Sample.replyWithReport "t1".
Proof.
  split; [reflexivity |].
  exact (proj2 (proj2 (proj2 (proj2 (proj2 (proj2
           (options_frame Sample.host "me@x.com" (Some []) "" "Sure."
              (Sample.fresh (Sample.replyWithReport "t1")) _
              (or_introl eq_refl))))))) eq_refl).
Defined.

(** X17.  The plain-text extraction invents nothing: its result is empty
    or the decoded body data of a part of the tree, and it is empty when no
    part of the tree carries body data. *)
Theorem decodeMessageBody_source (host : Host) (p : Part) :
  (decodeMessageBody host p = EmptyString
   \/ exists q, In q (allParts p) /\ hasData q = true
                /\ decodeMessageBody host p = decode host (part_data q))
  /\ (forallb (fun q => negb (hasData q)) (allParts p) = true ->
      decodeMessageBody host p = EmptyString).
Proof.
  assert (Src : forall p,
             decodeMessageBody host p = EmptyString
             \/ exists q, In q (allParts p) /\ hasData q = true
                          /\ decodeMessageBody host p = decode host (part_data q)).
  { clear p. intros p.
    induction p as [m d hs ps IH] using Part_induction.
    simpl decodeMessageBody.
    destruct (truthy_opt d) eqn:Own.
    - right. exists (mkPart m d hs ps). split; [apply allParts_self |].
      split; [exact Own | reflexivity].
    - destruct (find _ ps) as [part |] eqn:F.
      + apply find_some in F as [Hin Hm]. right. exists part.
        split; [eapply allParts_child; eauto using allParts_self |].
        apply andb_true_iff in Hm as [_ Hm]. split; [exact Hm | reflexivity].
      + destruct (first_truthy_cases (decodeMessageBody host) ps)
          as [E | (x & Hin & E)]; [now left |].
        rewrite E. rewrite Forall_forall in IH.
        destruct (IH x Hin) as [E' | (q & Hq & Hm & E')]; [now left |].
        right. exists q. split; [eapply allParts_child; eauto |].
        split; assumption. }
  split; [apply Src |].
  intros H. destruct (Src p) as [E | (q & Hq & Hd & _)]; [exact E |].
  rewrite forallb_forall in H. specialize (H q Hq).
  rewrite Hd in H. discriminate.
Qed.

Lemma decodeMessageBody_source_witness :
  forallb (fun q => negb (hasData q))
    (allParts (mkPart (Some "multipart/mixed") None []
                 [mkPart (Some "text/plain") None [] []])) = true
  /\ decodeMessageBody Sample.host
       (mkPart (Some "multipart/mixed") None []
          [mkPart (Some "text/plain") None [] []]) = EmptyString.
Proof.
  split; [reflexivity |].
  exact (proj2 (decodeMessageBody_source Sample.host
                  (mkPart (Some "multipart/mixed") None []
                     [mkPart (Some "text/plain") None [] []])) eq_refl).
Defined.

End ComposeMoreProps.

(** ** Labels *)

Module LabelProps.
Import JS Labels StringFacts.
#[local] Open Scope list_scope.

Lemma map_get_set_same (k v : string) (m : StrMap) :
  map_get k (map_set k v m) = Some v.
Proof.
  induction m as [| [k' v'] m IH]; simpl.
  - now rewrite String.eqb_refl.
  - destruct (String.eqb k' k) eqn:E; simpl; rewrite E; [reflexivity | exact IH].
Qed.

Lemma map_get_set_other (k k' v : string) (m : StrMap) :
  String.eqb k k' = false ->
  map_get k' (map_set k v m) = map_get k' m.
Proof.
  intros H. induction m as [| [k0 v0] m IH]; simpl.
  - now rewrite H.
  - destruct (String.eqb k0 k) eqn:E; simpl.
    + apply String.eqb_eq in E. subst k0. now rewrite H.
    + destruct (String.eqb k0 k'); [reflexivity | exact IH].
Qed.

(** The two maps of [getLabelMap] are filled independently. *)
Lemma labelMapOf_fold (ls : list Label) (acc : LabelMap) :
  let step := fun acc l =>
    {| idToName := map_set (label_id l) (label_name l) (idToName acc);
       nameToId := map_set (toLowerCase (label_name l)) (label_id l)
                     (nameToId acc) |} in
  idToName (fold_left step ls acc)
  = fold_left (fun m l => map_set (label_id l) (label_name l) m) ls
      (idToName acc)
  /\ nameToId (fold_left step ls acc)
     = fold_left (fun m l => map_set (toLowerCase (label_name l)) (label_id l) m)
         ls (nameToId acc).
Proof.
  simpl. revert acc. induction ls as [| l ls IH]; intros acc; simpl.
  - now split.
  - destruct (IH {| idToName := map_set (label_id l) (label_name l) (idToName acc);
                    nameToId := map_set (toLowerCase (label_name l)) (label_id l)
                                  (nameToId acc) |}) as (E1 & E2).
    now rewrite E1, E2.
Qed.

(** A fold of [set]s: keys the list does not mention are untouched, and the
    last binding of a key is the one that stays. *)
Lemma fold_set_absent {A} (key val : A -> string) (k : string)
    (ls : list A) (m : StrMap) :
  forallb (fun l => negb (String.eqb (key l) k)) ls = true ->
  map_get k (fold_left (fun m l => map_set (key l) (val l) m) ls m)
  = map_get k m.
Proof.
  revert m. induction ls as [| l ls IH]; intros m H; simpl; [reflexivity |].
  simpl in H. apply andb_true_iff in H as [Hl Hls].
  apply negb_true_iff in Hl.
  rewrite (IH _ Hls). now apply map_get_set_other.
Qed.

Lemma fold_set_last {A} (key val : A -> string)
    (before after : list A) (l : A) (m : StrMap) :
  forallb (fun l' => negb (String.eqb (key l') (key l))) after = true ->
  map_get (key l)
    (fold_left (fun m l => map_set (key l) (val l) m) (before ++ l :: after) m)
  = Some (val l).
Proof.
  intros H. rewrite fold_left_app. simpl.
  rewrite (fold_set_absent key val (key l) after _ H).
  apply map_get_set_same.
Qed.

(** X18.  [resolveLabelIds] over the map of [getLabelMap] keeps the length
    and the positions of the list it is given.  A name that is a listed
    label's name up to letter case becomes that label's id (of the last
    listed label with that name, if there are several); a name that no
    listed label has, and a name whose label has an empty id, are passed on
    as they are. *)
Theorem resolveLabelIds_resolves (ls : list Label) (labels : list string)
    (i : nat) (x : string) :
  nth_error labels i = Some x ->
  List.length (resolveLabelIds labels (nameToId (labelMapOf ls)))
  = List.length labels
  /\ (forall before l after,
        ls = before ++ l :: after ->
        toLowerCase (label_name l) = toLowerCase x ->
        forallb (fun l' => negb (String.eqb (toLowerCase (label_name l'))
                                   (toLowerCase (label_name l)))) after = true ->
        nth_error (resolveLabelIds labels (nameToId (labelMapOf ls))) i
        = Some (if truthy (label_id l) then label_id l else x))
  /\ (forallb (fun l' => negb (String.eqb (toLowerCase (label_name l'))
                                 (toLowerCase x))) ls = true ->
      nth_error (resolveLabelIds labels (nameToId (labelMapOf ls))) i = Some x).
Proof.
  intros Hx. unfold resolveLabelIds, labelMapOf.
  destruct (labelMapOf_fold ls {| idToName := []; nameToId := [] |}) as (_ & E).
  simpl in E. rewrite E. clear E.
  split; [apply length_map |]. split.
  - intros before l after -> Hname Hlast.
    rewrite nth_error_map, Hx. simpl. rewrite <- Hname.
    now rewrite (fold_set_last (fun l => toLowerCase (label_name l)) label_id
                   before after l [] Hlast).
  - intros Hnone. rewrite nth_error_map, Hx. simpl.
    now rewrite (fold_set_absent (fun l => toLowerCase (label_name l)) label_id
                   (toLowerCase x) ls [] Hnone).
Qed.

Lemma resolveLabelIds_resolves_witness :
  nth_error ["inbox"; "Label_7"] 0 = Some "inbox"
  /\ nth_error
       (resolveLabelIds ["inbox"; "Label_7"]
          (nameToId (labelMapOf
             [ {| label_id := "INBOX"; label_name := "INBOX"; label_type := "system" |};
               {| label_id := "Label_3"; label_name := "Work"; label_type := "user" |} ])))
       0
     = Some "INBOX".
Proof.
  split; [reflexivity |].
  exact (proj1 (proj2 (resolveLabelIds_resolves
           [ {| label_id := "INBOX"; label_name := "INBOX"; label_type := "system" |};
             {| label_id := "Label_3"; label_name := "Work"; label_type := "user" |} ]
           ["inbox"; "Label_7"] 0 "inbox" eq_refl))
           [] {| label_id := "INBOX"; label_name := "INBOX"; label_type := "system" |}
           [ {| label_id := "Label_3"; label_name := "Work"; label_type := "user" |} ]
           eq_refl eq_refl eq_refl).
Defined.

Lemma NoDup_after {A} (key : A -> string) (before after : list A) (l : A) :
  NoDup (map key (before ++ l :: after)) ->
  forallb (fun l' => negb (String.eqb (key l') (key l))) after = true.
Proof.
  rewrite map_app. simpl. intros H. apply NoDup_remove_2 in H.
  apply forallb_forall. intros l' Hin. apply negb_true_iff, String.eqb_neq.
  intros E. apply H. apply in_or_app. right. rewrite <- E. now apply in_map.
Qed.

(** X19.  The two maps of [getLabelMap] are inverse to each other on a
    listing whose ids are distinct and whose names are distinct up to
    letter case: every listed id is bound to its label's name, and the
    name, in lower case, is bound back to that id. *)
Theorem labelMap_round_trip (ls : list Label) (l : Label) :
  NoDup (map label_id ls) ->
  NoDup (map (fun l => toLowerCase (label_name l)) ls) ->
  In l ls ->
  map_get (label_id l) (idToName (labelMapOf ls)) = Some (label_name l)
  /\ map_get (toLowerCase (label_name l)) (nameToId (labelMapOf ls))
     = Some (label_id l).
Proof.
  intros Hid Hname Hin. unfold labelMapOf.
  destruct (labelMapOf_fold ls {| idToName := []; nameToId := [] |}) as (E1 & E2).
  simpl in E1, E2. rewrite E1, E2. clear E1 E2.
  apply in_split in Hin as (before & after & ->). split.
  - apply (fold_set_last label_id label_name before after l []).
    now apply NoDup_after with (before := before).
  - apply (fold_set_last (fun l => toLowerCase (label_name l)) label_id
             before after l []).
    now apply (NoDup_after (fun l => toLowerCase (label_name l)))
      with (before := before).
Qed.

Lemma labelMap_round_trip_witness :
  map_get "Label_3"
    (idToName (labelMapOf
       [ {| label_id := "INBOX"; label_name := "INBOX"; label_type := "system" |};
         {| label_id := "Label_3"; label_name := "Work"; label_type := "user" |} ]))
  = Some "Work".
Proof.
  refine (proj1 (labelMap_round_trip
           [ {| label_id := "INBOX"; label_name := "INBOX"; label_type := "system" |};
             {| label_id := "Label_3"; label_name := "Work"; label_type := "user" |} ]
           {| label_id := "Label_3"; label_name := "Work"; label_type := "user" |}
           _ _ (or_intror (or_introl eq_refl)))).
  - repeat constructor; simpl; intuition discriminate.
  - repeat constructor; simpl; intuition discriminate.
Defined.

End LabelProps.

(** ** Draft update *)

Module DraftProps.
Import JS Gmail Drafts Spec SpecMore StringFacts.

Lemma substring_app_exact (h x : string) :
  String.substring 0 (String.length h) (h ++ x) = h.
Proof.
  induction h as [| c h IH]; simpl.
  - now destruct x.
  - now rewrite IH.
Qed.

Lemma substring_skip (h x : string) (m : nat) :
  String.substring (String.length h) m (h ++ x) = String.substring 0 m x.
Proof. induction h as [| c h IH]; simpl; [reflexivity | exact IH]. Qed.

Lemma substring_0_0 (s : string) : String.substring 0 0 s = EmptyString.
Proof. now destruct s. Qed.

Lemma substring_inside (h x y : string) (c : ascii) (p : nat) :
  p < String.length h ->
  String.substring p 2 (h ++ String c x) = String.substring p 2 (h ++ String c y).
Proof.
  revert p. induction h as [| a h IH]; intros p Hp; simpl in Hp; [lia |].
  destruct p as [| p].
  - destruct h; simpl; now rewrite !substring_0_0.
  - simpl. apply IH. lia.
Qed.

Lemma blankLine_found (h rest : string) :
  String.index 0 blankLine (h ++ String LF EmptyString) = None ->
  String.index 0 blankLine (h ++ blankLine ++ rest)
  = Some (String.length h).
Proof.
  intros H0.
  assert (Here : String.substring (String.length h) 2 (h ++ blankLine ++ rest)
                 = blankLine).
  { rewrite substring_skip. simpl. now rewrite substring_0_0. }
  assert (NotEmpty : blankLine <> EmptyString) by discriminate.
  destruct (String.index 0 blankLine (h ++ blankLine ++ rest)) as [m |] eqn:I.
  - destruct (Nat.lt_trichotomy m (String.length h)) as [Lt | [-> | Gt]].
    + exfalso.
      pose proof (String.index_correct1 _ _ _ _ I) as Occ.
      change (String.length blankLine) with 2 in Occ.
      change (h ++ blankLine ++ rest)
        with (h ++ String LF (String LF rest)) in Occ.
      rewrite (substring_inside h (String LF rest) EmptyString LF m Lt) in Occ.
      exact (String.index_correct3 0 m _ _ H0 NotEmpty (Nat.le_0_l m) Occ).
    + reflexivity.
    + exfalso.
      exact (String.index_correct2 _ _ _ _ I (String.length h)
               (Nat.le_0_l _) Gt Here).
  - exfalso.
    exact (String.index_correct3 0 (String.length h) _ _ I NotEmpty
             (Nat.le_0_l _) Here).
Qed.

Lemma headersBefore_cut (h rest : string) :
  String.index 0 blankLine (h ++ String LF EmptyString) = None ->
  headersBefore (h ++ blankLine ++ rest) = h.
Proof.
  intros H0. unfold headersBefore. fold blankLine.
  rewrite (blankLine_found h rest H0).
  destruct h as [| c h]; [reflexivity |].
  change (0 <? String.length (String c h))%nat with true. cbv iota.
  apply substring_app_exact.
Qed.

(** X20.  [updateDraft] keeps the text before the first blank line of the
    stored raw message and replaces what follows it: when the decoded text
    is [h], a blank line, and the rest, with no blank line starting inside
    [h], the request carries [h], a blank line and the new body, under the
    draft's id and the stored message's thread. *)
Theorem updateDraft_keeps_headers (host : Host)
    (drafts_get : string -> option DraftData)
    (email draftId body : string) (draft : DraftData) (msg : RawMessage)
    (r h rest : string) :
  accountKnown host email = true ->
  drafts_get draftId = Some draft ->
  message draft = Some msg ->
  raw msg = Some r ->
  truthy r = true ->
  fromBase64url host r = h ++ blankLine ++ rest ->
  String.index 0 blankLine (h ++ String LF EmptyString) = None ->
  updateDraft_request host drafts_get email draftId body
  = Some {| upd_id := draftId;
            upd_raw := toBase64url host (h ++ blankLine ++ body);
            upd_threadId := threadId msg |}.
Proof.
  intros Hacc Hget Hmsg Hraw Ht Hdec H0.
  unfold updateDraft_request, getDraft.
  rewrite Hacc, Hget, Hmsg, Hraw. simpl truthy_opt. rewrite Ht.
  simpl or_empty. rewrite Hdec, (headersBefore_cut h rest H0).
  reflexivity.
Qed.

Lemma updateDraft_keeps_headers_witness :
  updateDraft_request Sample.host
    (fun _ => Some {| message := Some {| raw := Some "VG86IGEKCm9sZA==";
                                         threadId := Some "t9" |} |})
    "me@x.com" "d1" "new"
  = Some {| upd_id := "d1";
            upd_raw := toBase64url Sample.host ("To: a" ++ blankLine ++ "new");
            upd_threadId := Some "t9" |}.
Proof.
  exact (updateDraft_keeps_headers Sample.host
           (fun _ => Some {| message := Some {| raw := Some "VG86IGEKCm9sZA==";
                                                threadId := Some "t9" |} |})
           "me@x.com" "d1" "new" _ _ "VG86IGEKCm9sZA==" "To: a" "old"
           eq_refl eq_refl eq_refl eq_refl eq_refl eq_refl eq_refl).
Defined.

(** X21.  The edges of [updateDraft].  With an unknown account, a rejected
    fetch or a draft without a message it fails and sends no update.  When
    the stored raw text is absent or empty, has no blank line, or starts
    with one, no header text is kept: the request carries a blank line and
    the new body only. *)
Theorem updateDraft_edges (host : Host)
    (drafts_get : string -> option DraftData)
    (drafts_update : UpdateRequest -> option DraftData)
    (email draftId body : string) :
  (accountKnown host email = false
   \/ drafts_get draftId = None
   \/ (exists draft, drafts_get draftId = Some draft /\ message draft = None) ->
   updateDraft_request host drafts_get email draftId body = None
   /\ updateDraft host drafts_get drafts_update email draftId body = None)
  /\ (forall draft msg,
        accountKnown host email = true ->
        drafts_get draftId = Some draft ->
        message draft = Some msg ->
        truthy_opt (raw msg) = false
        \/ String.index 0 blankLine (fromBase64url host (or_empty (raw msg))) = None
        \/ String.index 0 blankLine (fromBase64url host (or_empty (raw msg)))
           = Some 0 ->
        updateDraft_request host drafts_get email draftId body
        = Some {| upd_id := draftId;
                  upd_raw := toBase64url host (blankLine ++ body);
                  upd_threadId := threadId msg |}).
Proof.
  split.
  - intros Hcause.
    assert (R : updateDraft_request host drafts_get email draftId body = None).
    { unfold updateDraft_request, getDraft.
      destruct (accountKnown host email); [| reflexivity].
      destruct Hcause as [Hacc | [Hget | (draft & Hget & Hmsg)]].
      - discriminate.
      - now rewrite Hget.
      - now rewrite Hget, Hmsg. }
    split; [exact R |]. unfold updateDraft. now rewrite R.
  - intros draft msg Hacc Hget Hmsg Hcase.
    unfold updateDraft_request, getDraft.
    rewrite Hacc, Hget, Hmsg.
    destruct (truthy_opt (raw msg)) eqn:T.
    + destruct Hcase as [Hc | [Hc | Hc]]; [discriminate | |];
        unfold headersBefore; fold blankLine; now rewrite Hc.
    + reflexivity.
Qed.

Lemma updateDraft_edges_witness :
  updateDraft_request Sample.host
    (fun _ => Some {| message := Some {| raw := None; threadId := Some "t9" |} |})
    "me@x.com" "d1" "new"
  = Some {| upd_id := "d1";
            upd_raw := toBase64url Sample.host (blankLine ++ "new");
            upd_threadId := Some "t9" |}.
Proof.
  exact (proj2 (updateDraft_edges Sample.host
                  (fun _ => Some {| message := Some {| raw := None;
                                                       threadId := Some "t9" |} |})
                  (fun _ => None) "me@x.com" "d1" "new")
           _ _ eq_refl eq_refl eq_refl (or_introl eq_refl)).
Defined.

End DraftProps.

(** ** Draft update after draft creation *)

Module DraftComposeProps.
Import JS ReplyUtils Gmail Drafts Spec SpecMore StringFacts ComposerProps.
#[local] Open Scope list_scope.

Lemma lfGuarded_weaken (b : bool) (s : string) :
  lfGuarded false s = true -> lfGuarded b s = true.
Proof.
  destruct s as [| c r]; [reflexivity |]. simpl.
  destruct (Ascii.eqb c LF); [discriminate | trivial].
Qed.

Lemma lfGuarded_free (b : bool) (s : string) :
  mem_char LF s = false -> lfGuarded b s = true.
Proof.
  revert b. induction s as [| c r IH]; intros b H; [reflexivity |].
  simpl in *. apply orb_false_iff in H as [Hc Hr].
  rewrite Hc. simpl. now apply IH.
Qed.

Lemma lfGuarded_app (b : bool) (x y : string) :
  lfGuarded b x = true -> lfGuarded false y = true ->
  lfGuarded b (x ++ y)%string = true.
Proof.
  revert b. induction x as [| c r IH]; intros b Hx Hy.
  - simpl. now apply lfGuarded_weaken.
  - simpl in *. apply andb_true_iff in Hx as [Hc Hr].
    rewrite Hc. simpl. now apply IH.
Qed.

Lemma lfGuarded_join (lines : list string) :
  Forall (fun x => mem_char LF x = false) lines ->
  lfGuarded false (join CRLF lines) = true.
Proof.
  induction lines as [| x lines IH]; intros H; [reflexivity |].
  inversion H as [| ? ? Hx Hl]; subst.
  destruct lines as [| y lines]; [now apply lfGuarded_free |].
  change (join CRLF (x :: y :: lines))
    with (x ++ CRLF ++ join CRLF (y :: lines))%string.
  apply lfGuarded_app; [now apply lfGuarded_free |].
  apply lfGuarded_app; [reflexivity | now apply IH].
Qed.

Lemma index_cons (p : string) (c : ascii) (r : string) :
  String.index 0 p (String c r)
  = if String.prefix p (String c r) then Some 0
    else match String.index 0 p r with
         | Some n => Some (S n)
         | None => None
         end.
Proof. reflexivity. Qed.

(** A text whose line feeds all follow carriage returns has no blank line
    in the sense of [updateDraft]. *)
Lemma lfGuarded_no_blankLine (b : bool) (s : string) :
  lfGuarded b s = true -> String.index 0 blankLine s = None.
Proof.
  revert b. induction s as [| c r IH]; intros b H; [reflexivity |].
  simpl in H. apply andb_true_iff in H as [Hc Hr].
  rewrite index_cons.
  destruct (String.prefix blankLine (String c r)) eqn:P.
  - exfalso. apply String.prefix_correct in P. simpl in P.
    injection P as -> P.
    destruct r as [| d r']; [discriminate |].
    simpl in P. injection P as -> _.
    simpl in Hr. discriminate.
  - now rewrite (IH _ Hr).
Qed.

Lemma mem_char_join (c : ascii) (sep : string) (xs : list string) :
  mem_char c sep = false ->
  forallb (fun x => negb (mem_char c x)) xs = true ->
  mem_char c (join sep xs) = false.
Proof.
  intros Hsep. induction xs as [| x xs IH]; intros H; [reflexivity |].
  simpl in H. apply andb_true_iff in H as [Hx Hxs].
  apply negb_true_iff in Hx.
  destruct xs as [| y xs]; [exact Hx |].
  change (join sep (x :: y :: xs)) with (x ++ sep ++ join sep (y :: xs))%string.
  now rewrite !mem_char_app, Hx, Hsep, (IH Hxs).
Qed.

Lemma Forall_removelast {A} (P : A -> Prop) (l : list A) :
  Forall P l -> Forall P (removelast l).
Proof.
  induction l as [| x l IH]; intros H; [constructor |].
  inversion H; subst. destruct l; [constructor |].
  simpl. constructor; [assumption | now apply IH].
Qed.

Lemma Forall_filter {A} (P : A -> Prop) (f : A -> bool) (l : list A) :
  Forall P l -> Forall P (filter f l).
Proof.
  induction l as [| x l IH]; intros H; [constructor |].
  inversion H; subst. simpl. destruct (f x); [constructor |]; auto.
Qed.

(** The header block of a message without reply target has no line feed
    when the values it is made of have none. *)
Lemma plain_headerBlock_one_line (email subject body : string)
    (rs : list string) (o : Options.t) (tid : option string) (ct : string) :
  mem_char LF email = false ->
  mem_char LF subject = false ->
  mem_char LF ct = false ->
  forallb (fun x => negb (mem_char LF x)) rs = true ->
  forallb (fun x => negb (mem_char LF x)) (or_nil (Options.cc o)) = true ->
  forallb (fun x => negb (mem_char LF x)) (or_nil (Options.bcc o)) = true ->
  Forall (fun x => mem_char LF x = false)
    (headerBlock email rs o
       {| recipientList := Some rs; subjectLine := subject; bodyText := body;
          v_inReplyTo := None; v_references := None; v_threadId := tid;
          replyData := None |} ct).
Proof.
  intros He Hs Hct Hrs Hcc Hbcc. unfold headerBlock. apply Forall_filter.
  simpl subjectLine. simpl truthy_opt. cbv iota.
  repeat constructor.
  - now rewrite mem_char_app, He.
  - rewrite mem_char_app. now rewrite mem_char_join.
  - destruct (nonEmpty (Options.cc o)); [| reflexivity].
    rewrite mem_char_app. now rewrite mem_char_join.
  - destruct (nonEmpty (Options.bcc o)); [| reflexivity].
    rewrite mem_char_app. now rewrite mem_char_join.
  - now rewrite mem_char_app, Hs.
  - now rewrite mem_char_app, Hct.
Qed.

Lemma updateDraft_request_no_blank (host : Host)
    (drafts_get : string -> option DraftData)
    (email draftId body r : string) (t : option string) :
  accountKnown host email = true ->
  drafts_get draftId
  = Some {| message := Some {| raw := Some r; threadId := t |} |} ->
  String.index 0 blankLine (fromBase64url host r) = None ->
  updateDraft_request host drafts_get email draftId body
  = Some {| upd_id := draftId;
            upd_raw := toBase64url host (blankLine ++ body)%string;
            upd_threadId := t |}.
Proof.
  intros Hacc Hget Hidx. unfold updateDraft_request, getDraft.
  rewrite Hacc, Hget. simpl.
  destruct (truthy r); [| reflexivity].
  unfold headersBefore. fold blankLine. now rewrite Hidx.
Qed.

(** X22.  [updateDraft] does not keep the headers of a draft as
    [createDraft] writes it.  Take a new message (no reply target, no
    attachments) whose account, recipients, copies, subject hold no line
    feed and whose body has line feeds only after carriage returns: the
    composed text separates its lines by CR LF, so it has no blank line of
    two line feeds, and [updateDraft] on a draft holding that text sends a
    blank line and the new body, without any header. *)
Theorem updateDraft_drops_composed_headers (host : Host)
    (drafts_get : string -> option DraftData)
    (email subject body draftId newBody : string) (rs : list string)
    (st st' : Store) (l : Locals) (a : Assembled) (t : option string) :
  createDraft_message host email (Some rs) subject body st
  = (Returned (l, a), st') ->
  truthy_opt (Options.replyToMessageId (options st)) = false ->
  nonEmpty (Options.attachments (options st)) = false ->
  mem_char LF email = false ->
  mem_char LF subject = false ->
  forallb (fun x => negb (mem_char LF x)) rs = true ->
  forallb (fun x => negb (mem_char LF x)) (or_nil (Options.cc (options st))) = true ->
  forallb (fun x => negb (mem_char LF x)) (or_nil (Options.bcc (options st))) = true ->
  lfGuarded false body = true ->
  drafts_get draftId
  = Some {| message := Some {| raw := Some (toBase64url host (emailContent a));
                               threadId := t |} |} ->
  fromBase64url host (toBase64url host (emailContent a)) = emailContent a ->
  updateDraft_request host drafts_get email draftId newBody
  = Some {| upd_id := draftId;
            upd_raw := toBase64url host (blankLine ++ newBody)%string;
            upd_threadId := t |}.
Proof.
  intros H T Hatt He Hs Hrs Hcc Hbcc Hbody Hget Hcodec.
  rewrite createDraft_message_unfold in H.
  destruct (accountKnown host email) eqn:Hacc; [| discriminate].
  apply composeWith_returned in H as [A B].
  rewrite (autoFill_noreply _ _ _ _ _ _ _ T) in A.
  inversion A; subst l st'; clear A.
  destruct (assemble_returned _ _ _ _ _ _ _ B) as (_ & rs' & Hrs' & Hread).
  destruct (assemble_run host email body _ st rs' Hrs' Hread)
    as (a' & B' & Hct & Hh & Hcontent).
  rewrite B in B'. inversion B'; subst a'; clear B'.
  simpl in Hrs'. inversion Hrs'; subst rs'; clear Hrs'.
  assert (Hnil : or_nil (Options.attachments (options st)) = []).
  { destruct (Options.attachments (options st)) as [[| f fs] |];
      [reflexivity | discriminate | reflexivity]. }
  unfold expectedContentType, quoteIncluded in Hct. rewrite Hnil in Hct.
  simpl in Hct.
  unfold expectedEntity, replyEntity, quoteIncluded in Hcontent.
  rewrite Hnil in Hcontent. simpl replyData in Hcontent. cbv iota in Hcontent.
  simpl bodyText in Hcontent.
  apply (updateDraft_request_no_blank host drafts_get email draftId newBody
           _ t Hacc Hget).
  rewrite Hcodec, Hcontent.
  apply lfGuarded_no_blankLine with (b := false).
  apply lfGuarded_app.
  - apply lfGuarded_join, Forall_removelast. rewrite Hh, Hct.
    now apply plain_headerBlock_one_line.
  - apply lfGuarded_app; [reflexivity |].
    unfold textLeaf. simpl. exact Hbody.
Qed.

Lemma updateDraft_drops_composed_headers_witness :
  exists l a st',
    createDraft_message Sample.host "me@x.com" (Some ["a@b.c"]) "Hi" "Text"
      (Sample.fresh (SampleMore.inThread "t9")) = (Returned (l, a), st')
    /\ updateDraft_request Sample.host
         (fun _ => Some {| message :=
                             Some {| raw := Some (toBase64url Sample.host
                                                    (emailContent a));
                                     threadId := Some "t9" |} |})
         "me@x.com" "d1" "New text"
       = Some {| upd_id := "d1";
                 upd_raw := toBase64url Sample.host (blankLine ++ "New text")%string;
                 upd_threadId := Some "t9" |}.
Proof.
  eexists. eexists. eexists. split.
  - lazy. reflexivity.
  - refine (updateDraft_drops_composed_headers Sample.host _ "me@x.com" "Hi"
              "Text" "d1" "New text" ["a@b.c"]
              (Sample.fresh (SampleMore.inThread "t9")) _ _ _ (Some "t9")
              _ eq_refl eq_refl eq_refl eq_refl eq_refl eq_refl eq_refl eq_refl
              eq_refl _).
    + lazy. reflexivity.
    + vm_compute. reflexivity.
Defined.

End DraftComposeProps.

(** ** Label modification *)

Module ModifyProps.
Import Gmail ModifyLabels.
#[local] Open Scope list_scope.

Lemma modifyOne_result (tm : list Request -> Request -> option string)
    (t : string) (addLabels removeLabels : list string) (sent : list Request) :
  threadId (fst (modifyOne tm t addLabels removeLabels sent)) = t
  /\ (success (fst (modifyOne tm t addLabels removeLabels sent)) = true
      <-> error (fst (modifyOne tm t addLabels removeLabels sent)) = None)
  /\ exists extra,
       snd (modifyOne tm t addLabels removeLabels sent) = sent ++ extra
       /\ Forall (fun r => req_thread r = t) extra
       /\ List.length extra <= 2
       /\ (addLabels = [] -> removeLabels = [] ->
           extra = []
           /\ success (fst (modifyOne tm t addLabels removeLabels sent)) = true).
Proof.
  unfold modifyOne.
  destruct addLabels as [| a0 al]; destruct removeLabels as [| r0 rl].
  - simpl. split; [reflexivity |]. split; [tauto |].
    exists []. rewrite app_nil_r. repeat split; auto.
  - destruct (tm sent _) eqn:E1; simpl;
      (split; [reflexivity |]); (split; [split; intros; congruence |]);
      eexists; (split; [reflexivity |]); repeat split;
      try (repeat constructor); simpl; try lia; discriminate.
  - destruct (tm sent _) eqn:E1; simpl;
      (split; [reflexivity |]); (split; [split; intros; congruence |]);
      eexists; (split; [reflexivity |]); repeat split;
      try (repeat constructor); simpl; try lia; discriminate.
  - destruct (tm sent _) eqn:E1; simpl.
    + split; [reflexivity |]. split; [split; intros; congruence |].
      eexists. split; [reflexivity |]. repeat split;
        try (repeat constructor); simpl; try lia; discriminate.
    + destruct (tm (sent ++ _) _) eqn:E2; simpl;
        (split; [reflexivity |]); (split; [split; intros; congruence |]);
        eexists; (split; [rewrite <- app_assoc; reflexivity |]); repeat split;
        try (repeat constructor); simpl; try lia; discriminate.
Qed.

Lemma modifyEach_results (tm : list Request -> Request -> option string)
    (ts : list string) (addLabels removeLabels : list string)
    (sent : list Request) :
  map threadId (fst (modifyEach tm ts addLabels removeLabels sent)) = ts
  /\ Forall (fun res => success res = true <-> error res = None)
       (fst (modifyEach tm ts addLabels removeLabels sent))
  /\ exists extra,
       snd (modifyEach tm ts addLabels removeLabels sent) = sent ++ extra
       /\ Forall (fun r => In (req_thread r) ts) extra
       /\ List.length extra <= 2 * List.length ts
       /\ (addLabels = [] -> removeLabels = [] ->
           extra = []
           /\ forallb success
                (fst (modifyEach tm ts addLabels removeLabels sent)) = true).
Proof.
  revert sent. induction ts as [| t ts IH]; intros sent.
  - simpl. split; [reflexivity |]. split; [constructor |].
    exists []. rewrite app_nil_r. repeat split; auto.
  - simpl.
    destruct (modifyOne_result tm t addLabels removeLabels sent)
      as (Ht & Hs & e1 & S1 & F1 & L1 & N1).
    destruct (modifyOne tm t addLabels removeLabels sent) as [r sent1].
    simpl in Ht, Hs, S1, N1. subst sent1.
    destruct (IH (sent ++ e1)) as (Hts & Hss & e2 & S2 & F2 & L2 & N2).
    destruct (modifyEach tm ts addLabels removeLabels (sent ++ e1))
      as [rs sent2].
    simpl in *. subst sent2.
    split; [now rewrite Ht, Hts |]. split; [now constructor |].
    exists (e1 ++ e2). split; [now rewrite app_assoc |].
    split; [| split].
    + apply Forall_app. split.
      * eapply Forall_impl; [| exact F1]. intros q Hq. now left.
      * eapply Forall_impl; [| exact F2]. intros q Hq. now right.
    + rewrite length_app. lia.
    + intros Ha Hr. destruct (N1 Ha Hr) as (-> & Hr1).
      destruct (N2 Ha Hr) as (-> & Hr2). split; [reflexivity |].
      now rewrite Hr1, Hr2.
Qed.



End ModifyProps.

(** ** The account store *)

Module AccountProps.
Import Accounts SpecMore.
#[local] Open Scope list_scope.

Lemma acc_get_set (k k' : string) (a : EmailAccount) (m : AccountMap) :
  acc_get k' (acc_set k a m)
  = if String.eqb k k' then Some a else acc_get k' m.
Proof.
  induction m as [| [k0 a0] m IH]; simpl.
  - reflexivity.
  - destruct (String.eqb k0 k) eqn:E; simpl.
    + apply String.eqb_eq in E. subst k0.
      now destruct (String.eqb k k').
    + destruct (String.eqb k0 k') eqn:E'; [| exact IH].
      apply String.eqb_eq in E'. subst k0.
      rewrite String.eqb_sym in E. now rewrite E.
Qed.

Lemma acc_has_get (k : string) (m : AccountMap) :
  acc_has k m = match acc_get k m with Some _ => true | None => false end.
Proof.
  induction m as [| [k0 a0] m IH]; simpl; [reflexivity |].
  destruct (String.eqb k0 k); [reflexivity | exact IH].
Qed.

Lemma acc_has_keys (k : string) (m : AccountMap) :
  acc_has k m = true <-> In k (map fst m).
Proof.
  induction m as [| [k0 a0] m IH]; simpl; [split; [discriminate | tauto] |].
  rewrite orb_true_iff, String.eqb_eq, IH. tauto.
Qed.

Lemma acc_set_keys (k : string) (a : EmailAccount) (m : AccountMap) :
  map fst (acc_set k a m)
  = if acc_has k m then map fst m else map fst m ++ [k].
Proof.
  induction m as [| [k0 a0] m IH]; simpl; [reflexivity |].
  destruct (String.eqb k0 k) eqn:E; simpl; [reflexivity |].
  rewrite IH. now destruct (acc_has k m).
Qed.

Lemma acc_set_fresh (k : string) (a : EmailAccount) (m : AccountMap) :
  acc_has k m = false -> acc_set k a m = m ++ [(k, a)].
Proof.
  induction m as [| [k0 a0] m IH]; simpl; [reflexivity |].
  intros H. apply orb_false_iff in H as [H1 H2].
  rewrite H1. now rewrite (IH H2).
Qed.

Lemma acc_set_wellKeyed (a : EmailAccount) (m : AccountMap) :
  wellKeyed m -> wellKeyed (acc_set (email a) a m).
Proof.
  intros [Hnd Hk]. split.
  - rewrite acc_set_keys. destruct (acc_has (email a) m) eqn:E; [exact Hnd |].
    apply NoDup_app; [exact Hnd | repeat constructor; simpl; tauto |].
    intros x Hx [<- | []].
    apply acc_has_keys in Hx. congruence.
  - clear Hnd. induction m as [| [k0 a0] m IH]; simpl.
    + repeat constructor.
    + inversion Hk; subst. simpl in *.
      destruct (String.eqb k0 (email a)) eqn:E.
      * apply String.eqb_eq in E. constructor; [exact E | assumption].
      * constructor; [assumption | now apply IH].
Qed.

Lemma acc_delete_keys (k : string) (m : AccountMap) :
  forall x, In x (map fst (acc_delete k m)) -> In x (map fst m).
Proof.
  induction m as [| [k0 a0] m IH]; simpl; [tauto |].
  intros x. destruct (String.eqb k0 k); simpl; [tauto |].
  intros [-> | H]; [now left | right; now apply IH].
Qed.

Lemma acc_delete_wellKeyed (k : string) (m : AccountMap) :
  wellKeyed m -> wellKeyed (acc_delete k m).
Proof.
  intros [Hnd Hk]. split.
  - induction m as [| [k0 a0] m IH]; simpl; [constructor |].
    simpl in Hnd. inversion Hnd; subst. inversion Hk; subst.
    destruct (String.eqb k0 k); [assumption |]. simpl.
    constructor; [| now apply IH].
    intros Hin. now apply acc_delete_keys in Hin.
  - induction m as [| [k0 a0] m IH]; simpl; [constructor |].
    inversion Hk; subst. simpl in Hnd. inversion Hnd; subst.
    destruct (String.eqb k0 k); [assumption |].
    constructor; [assumption | now apply IH].
Qed.

Lemma acc_get_delete (k k' : string) (m : AccountMap) :
  NoDup (map fst m) ->
  acc_get k' (acc_delete k m)
  = if String.eqb k k' then None else acc_get k' m.
Proof.
  intros Hnd. induction m as [| [k0 a0] m IH]; simpl.
  - now destruct (String.eqb k k').
  - simpl in Hnd. inversion Hnd as [| ? ? Hnot Hnd']; subst.
    destruct (String.eqb k0 k) eqn:E.
    + apply String.eqb_eq in E. subst k0.
      destruct (String.eqb k k') eqn:E'; [| reflexivity].
      apply String.eqb_eq in E'. subst k'.
      destruct (acc_get k m) eqn:G; [| reflexivity].
      exfalso. apply Hnot. apply acc_has_keys. rewrite acc_has_get. now rewrite G.
    + simpl. destruct (String.eqb k0 k') eqn:E'.
      * apply String.eqb_eq in E'. subst k0.
        rewrite String.eqb_sym in E. now rewrite E.
      * now apply IH.
Qed.

(** X24.  The store as a map.  After [addAccount] the account is found
    under its address, and every other address is found as before.
    [deleteAccount] tells whether the address was known; after it the
    address is unknown and every other address is found as before; and a
    deletion that finds nothing leaves the store, and the file, as they
    were. *)
Theorem store_lookup (s : Storage) (a : EmailAccount) (e e' : string) :
  wellKeyed (accounts s) ->
  getAccount e' (addAccount a s)
  = (if String.eqb (email a) e' then Some a else getAccount e' s)
  /\ hasAccount e' (addAccount a s)
     = (String.eqb (email a) e' || hasAccount e' s)
  /\ fst (deleteAccount e s) = hasAccount e s
  /\ getAccount e' (snd (deleteAccount e s))
     = (if String.eqb e e' then None else getAccount e' s)
  /\ (hasAccount e s = false -> snd (deleteAccount e s) = s).
Proof.
  intros [Hnd Hk].
  unfold getAccount, hasAccount, addAccount, deleteAccount, saveAccounts.
  simpl. rewrite !acc_has_get, acc_get_set.
  split; [reflexivity |].
  split; [now destruct (String.eqb (email a) e') |].
  split; [reflexivity |]. split.
  - destruct (acc_get e (accounts s)); simpl; now apply acc_get_delete.
  - destruct (acc_get e (accounts s)) eqn:G; [discriminate |]. intros _.
    destruct s as [m f]. simpl in *. f_equal.
    clear Hnd Hk. induction m as [| [k0 a0] m IH]; simpl; [reflexivity |].
    simpl in G. destruct (String.eqb k0 e); [discriminate |].
    now rewrite (IH G).
Qed.

Lemma store_lookup_witness :
  wellKeyed (accounts (open NoFile))
  /\ getAccount "me@x.com"
       (addAccount
          {| email := "me@x.com";
             oauth2 := {| clientId := "id"; clientSecret := "secret";
                          refreshToken := "rt"; accessToken := None |} |}
          (open NoFile))
     = Some {| email := "me@x.com";
               oauth2 := {| clientId := "id"; clientSecret := "secret";
                            refreshToken := "rt"; accessToken := None |} |}.
Proof.
  assert (W : wellKeyed (accounts (open NoFile)))
    by (split; constructor).
  split; [exact W |].
  exact (proj1 (store_lookup (open NoFile)
                  {| email := "me@x.com";
                     oauth2 := {| clientId := "id"; clientSecret := "secret";
                                  refreshToken := "rt"; accessToken := None |} |}
                  "me@x.com" "me@x.com" W)).
Defined.

Lemma load_values (m2 m1 : AccountMap) :
  wellKeyed (m1 ++ m2) ->
  fold_left (fun m a => acc_set (email a) a m) (acc_values m2) m1 = m1 ++ m2.
Proof.
  revert m1. induction m2 as [| [k a] m2 IH]; intros m1 W; simpl.
  - now rewrite app_nil_r.
  - destruct W as [Hnd Hk].
    assert (Ek : k = email a).
    { rewrite Forall_forall in Hk.
      apply (Hk (k, a)). apply in_or_app. right. now left. }
    subst k.
    assert (Fresh : acc_has (email a) m1 = false).
    { destruct (acc_has (email a) m1) eqn:E; [| reflexivity].
      exfalso. apply acc_has_keys in E.
      rewrite map_app in Hnd. simpl in Hnd.
      apply NoDup_remove_2 in Hnd. apply Hnd. apply in_or_app. now left. }
    rewrite (acc_set_fresh _ _ _ Fresh).
    replace (m1 ++ (email a, a) :: m2) with ((m1 ++ [(email a, a)]) ++ m2)
      by (rewrite <- app_assoc; reflexivity).
    apply IH. split; rewrite <- app_assoc; assumption.
Qed.



End AccountProps.
